(** * Ride sharing: a model of [rideshre.cpp] and its properties

    The program has three ride classes ([Ride], [StandardRide],
    [PremiumRide]) with a virtual [fare], a static identifier counter, and
    [Driver] / [Rider] objects that keep vectors of [std::shared_ptr<Ride>].

    Modelling choices:
    - [double] is IEEE 754 binary64 with round-to-nearest-even on every
      operation: Rocq's primitive [float].  Universal statements are proved
      through the standard library's specification of these operations
      ([SpecFloat], linked to the primitives by [FloatAxioms]).
    - [int] is a 32-bit two's complement integer carried in [Z]; the
      increment of the identifier counter wraps ([int_wrap]).  ISO C++ leaves
      signed overflow undefined; the wrap is what the usual targets do.
    - [std::shared_ptr<Ride>] is an optional location ([None] is the null
      pointer) into a heap of control blocks, each holding the immutable
      ride object and its use count.
    - [std::cout] is the list of the items inserted into the stream. *)

From Stdlib Require Import ZArith Lia String.
From Stdlib Require Import Floats.
From stdpp Require Import base option list gmap.

Set Warnings "-inexact-float".

(** ** Machine numbers *)

Definition INT_MAX : Z := 2147483647.
Definition INT_MIN : Z := -2147483648.

(** Reduction of an integer to the range of [int]. *)
Definition int_wrap (z : Z) : Z := ((z + 2147483648) mod 4294967296 - 2147483648)%Z.

(** [nextID++] : the value read, and the value stored back. *)
Definition post_increment (v : Z) : Z * Z := (v, int_wrap (v + 1)).

Abbreviation double := float.

(** [std::max(a, b)] is [(a < b) ? b : a]. *)
Definition std_max (a b : double) : double := if (a <? b)%float then b else a.

(** ** Output stream

    The manipulators [std::fixed << std::setprecision(2)] precede every
    [double] the program prints, so a printed [double] is a [Fixed2] item. *)
Inductive item : Type :=
  | Str (s : string)
  | Int (n : Z)
  | Size (n : nat)
  | Fixed2 (x : double)
  | Endl.

(** The hundredths shown for a finite [double] in fixed notation with two
    decimals: the exact binary value times 100, rounded to the nearest
    integer, ties to even. *)
Definition round_half_even (n d : Z) : Z :=
  let q := (n / d)%Z in
  let r := (n mod d)%Z in
  match (2 * r ?= d)%Z with
  | Lt => q
  | Gt => (q + 1)%Z
  | Eq => if Z.even q then q else (q + 1)%Z
  end.

Definition hundredths (x : double) : option Z :=
  match Prim2SF x with
  | S754_zero _ => Some 0%Z
  | S754_finite s m e =>
      let mag :=
        match e with
        | Zneg p => round_half_even (100 * Zpos m) (Zpos (Pos.shiftl 1 (Npos p)))
        | _ => (100 * Zpos m * 2 ^ e)%Z
        end in
      Some (if s then (- mag)%Z else mag)
  | _ => None
  end.

(** ** Rides *)

(** The dynamic type of a ride object, with the member that the derived
    class adds. *)
Inductive ride_class : Type :=
  | IsRide
  | IsStandardRide
  | IsPremiumRide (luxuryMultiplier : double).

Record Ride : Type := mkRide {
  rideID : Z;
  pickupLocation : string;
  dropoffLocation : string;
  distanceMiles : double;
  dynamic_type : ride_class
}.

Definition getRideID (r : Ride) : Z := rideID r.
Definition getPickup (r : Ride) : string := pickupLocation r.
Definition getDropoff (r : Ride) : string := dropoffLocation r.
Definition getDistance (r : Ride) : double := distanceMiles r.

(** ** Shared pointers and the program state *)

Definition loc : Type := positive.

(** [std::shared_ptr<Ride>]; [None] is the null pointer. *)
Abbreviation shared_ptr := (option loc).

Record control_block : Type := mkBlock {
  object : Ride;
  use_count : nat
}.

(** The static counter [Ride::nextID] and the free store. *)
Record State : Type := mkState {
  nextID : Z;
  heap : gmap loc control_block
}.

(** [int Ride::nextID = 1;] and an empty free store. *)
Definition initial_state : State := mkState 1 ∅.

(** Copying a [shared_ptr] adds one owner. *)
Definition sp_copy (p : shared_ptr) (h : gmap loc control_block) : gmap loc control_block :=
  match p with
  | None => h
  | Some l => alter (fun b => mkBlock (object b) (S (use_count b))) l h
  end.

(** Destroying a [shared_ptr] removes one owner; the last owner deletes the
    object. *)
Definition sp_release (h : gmap loc control_block) (p : shared_ptr) : gmap loc control_block :=
  match p with
  | None => h
  | Some l =>
      match h !! l with
      | Some b =>
          match use_count b with
          | S (S n) => <[l := mkBlock (object b) (S n)]> h
          | _ => delete l h
          end
      | None => h
      end
  end.

(** [std::vector<std::shared_ptr<Ride>>::push_back]: the vector gets a copy
    of the pointer at its end. *)
Definition push_back (v : list shared_ptr) (p : shared_ptr)
    (h : gmap loc control_block) : list shared_ptr * gmap loc control_block :=
  (v ++ [p], sp_copy p h).

(** [std::vector<std::shared_ptr<Ride>>::clear]: every stored pointer is
    destroyed, first to last. *)
Definition clear (v : list shared_ptr) (h : gmap loc control_block)
    : list shared_ptr * gmap loc control_block :=
  ([], foldl sp_release h v).

(** [*p] for a non-null [p]. *)
Definition deref (h : gmap loc control_block) (l : loc) : option Ride :=
  object <$> h !! l.

(** ** Constructors *)

(** [Ride::Ride]: the member initialiser [rideID(nextID++)] reads and
    advances the static counter; nothing else is touched. *)
Definition Ride_ctor (pickup dropoff : string) (distance : double)
    (s : State) : Ride * State :=
  let '(id, next) := post_increment (nextID s) in
  (mkRide id pickup dropoff distance IsRide, mkState next (heap s)).

(** The derived part of a constructor: the object gets its final dynamic
    type. *)
Definition as_class (c : ride_class) (r : Ride) : Ride :=
  mkRide (rideID r) (pickupLocation r) (dropoffLocation r) (distanceMiles r) c.

(** [StandardRide::StandardRide] *)
Definition StandardRide_ctor (pickup dropoff : string) (distance : double)
    (s : State) : Ride * State :=
  let '(r, s') := Ride_ctor pickup dropoff distance s in
  (as_class IsStandardRide r, s').

(** [PremiumRide::PremiumRide]; [multiplier] has the default argument 2.0. *)
Definition PremiumRide_ctor (pickup dropoff : string) (distance : double)
    (multiplier : option double) (s : State) : Ride * State :=
  let multiplier := default 2.0%float multiplier in
  let '(r, s') := Ride_ctor pickup dropoff distance s in
  (as_class (IsPremiumRide multiplier) r, s').

(** A constructor call of one of the three classes. *)
Inductive new_expr : Type :=
  | NewRide (pickup dropoff : string) (distance : double)
  | NewStandardRide (pickup dropoff : string) (distance : double)
  | NewPremiumRide (pickup dropoff : string) (distance : double)
      (multiplier : option double).

Definition construct (e : new_expr) (s : State) : Ride * State :=
  match e with
  | NewRide p q d => Ride_ctor p q d s
  | NewStandardRide p q d => StandardRide_ctor p q d s
  | NewPremiumRide p q d m => PremiumRide_ctor p q d m s
  end.


(** How a call can end: it returns, or it throws.  [InvalidArgument] is
    the error of a rejected argument, [BadAlloc] is [std::bad_alloc]. *)
Inductive exception : Type := InvalidArgument | BadAlloc.

Inductive outcome (A : Type) : Type :=
  | Returns (a : A)
  | Throws (e : exception).
Arguments Returns {A} a.
Arguments Throws {A} e.

(** The two strings that a constructor call copies into the object. *)
Definition copied_strings (e : new_expr) : string * string :=
  match e with
  | NewRide p q _ | NewStandardRide p q _ | NewPremiumRide p q _ _ => (p, q)
  end.

(** A constructor call as its caller sees it.  The member initialisers of
    [Ride::Ride] run in the order of the declarations: [rideID(nextID++)]
    first, then the copies [pickupLocation(pickup)] and
    [dropoffLocation(dropoff)], each of which throws [std::bad_alloc] when
    its allocation fails, then [distanceMiles(distance)].  [copy_ok] tells
    for a string whether the allocation of its copy succeeds.  No constructor
    has a [throw] expression or a test of its arguments.  A throw leaves no
    object, and the counter advanced. *)
Definition create (copy_ok : string -> bool) (e : new_expr) (s : State)
    : outcome Ride * State :=
  let '(r, s') := construct e s in
  let '(pickup, dropoff) := copied_strings e in
  if copy_ok pickup then
    if copy_ok dropoff then (Returns r, s') else (Throws BadAlloc, s')
  else (Throws BadAlloc, s').

(** [std::make_shared<T>(...)]: construct, then place the object in a fresh
    control block owned by the returned pointer. *)
Definition make_shared (e : new_expr) (s : State) : shared_ptr * State :=
  let '(r, s') := construct e s in
  let l := fresh (dom (heap s')) in
  (Some l, mkState (nextID s') (<[l := mkBlock r 1]> (heap s'))).

(** ** Fares *)

Module Fare.
Local Open Scope float_scope.

(** [Ride::fare] *)
Definition Ride_fare (r : Ride) : double :=
  let basePerMile := 1.0 in
  let rawFare := basePerMile * distanceMiles r in
  std_max 2.0 rawFare.

(** [StandardRide::fare] *)
Definition StandardRide_fare (r : Ride) : double :=
  let perMile := 1.5 in
  let raw := perMile * getDistance r in
  let bookingFee := 1.0 in
  std_max 3.0 (raw + bookingFee).

(** [PremiumRide::fare] *)
Definition PremiumRide_fare (r : Ride) (luxuryMultiplier : double) : double :=
  let basePerMile := 2.5 in
  let raw := basePerMile * getDistance r * luxuryMultiplier in
  let surge := 2.0 in
  std_max 10.0 (raw + surge).
End Fare.

(** The virtual call [r->fare()]. *)
Definition fare (r : Ride) : double :=
  match dynamic_type r with
  | IsRide => Fare.Ride_fare r
  | IsStandardRide => Fare.StandardRide_fare r
  | IsPremiumRide m => Fare.PremiumRide_fare r m
  end.

(** [m] is the greater of [a] and [b] in the order of [double]. *)
Definition is_max_of (m a b : double) : Prop :=
  (m = a \/ m = b) /\ (a <=? m)%float = true /\ (b <=? m)%float = true.

(** ** Ride details *)

(** [Ride::rideDetails]; the [fare()] in it is a virtual call. *)
Definition Ride_rideDetails (r : Ride) : list item :=
  [Str "Ride #"; Int (rideID r);
   Str " | From: "; Str (pickupLocation r);
   Str " -> To: "; Str (dropoffLocation r);
   Str " | Distance: "; Fixed2 (distanceMiles r); Str " miles";
   Str " | Fare: $"; Fixed2 (fare r);
   Endl].

(** The virtual call [r->rideDetails()]. *)
Definition rideDetails (r : Ride) : list item :=
  match dynamic_type r with
  | IsRide => Ride_rideDetails r
  | IsStandardRide => Str "[Standard] " :: Ride_rideDetails r
  | IsPremiumRide _ => Str "[Premium]  " :: Ride_rideDetails r
  end.

(** ** Drivers *)

Module Driver.
Record t : Type := mk {
  driverID : Z;
  name : string;
  rating : double;
  assignedRides : list shared_ptr
}.

(** [Driver::Driver]; [r] has the default argument 5.0. *)
Definition ctor (id : Z) (n : string) (r : option double) : t :=
  mk id n (default 5.0%float r) [].

(** [Driver::addRide] *)
Definition addRide (ride : shared_ptr) (d : t) (h : gmap loc control_block)
    : t * gmap loc control_block :=
  let vh := push_back (assignedRides d) ride h in
  (mk (driverID d) (name d) (rating d) (fst vh), snd vh).

(** The range-for loop of [getDriverInfo], carrying the output and the
    local [totalEarnings].  [if (r)] skips a null pointer; dereferencing a
    pointer whose object is gone has no defined result. *)
Fixpoint rides_loop (h : gmap loc control_block) (rs : list shared_ptr)
    (out : list item) (totalEarnings : double) : option (list item * double) :=
  match rs with
  | [] => Some (out, totalEarnings)
  | None :: rs' => rides_loop h rs' out totalEarnings
  | Some l :: rs' =>
      match deref h l with
      | Some r =>
          rides_loop h rs' (out ++ rideDetails r) (totalEarnings + fare r)%float
      | None => None
      end
  end.

(** The two lines printed before the loop. *)
Definition header (d : t) : list item :=
  [Str "Driver ID: "; Int (driverID d);
   Str " | Name: "; Str (name d);
   Str " | Rating: "; Fixed2 (rating d); Endl;
   Str "Assigned rides ("; Size (length (assignedRides d)); Str "):"; Endl].

(** [Driver::getDriverInfo] *)
Definition getDriverInfo (d : t) (h : gmap loc control_block) : option (list item) :=
  match rides_loop h (assignedRides d) (header d) 0.0%float with
  | Some (out, totalEarnings) =>
      Some (out ++ [Str "Total earnings from assigned rides: $";
                    Fixed2 totalEarnings; Endl])
  | None => None
  end.

(** The value of the local [totalEarnings] when the loop of
    [getDriverInfo] ends. *)
Definition totalEarnings (d : t) (h : gmap loc control_block) : option double :=
  snd <$> rides_loop h (assignedRides d) (header d) 0.0%float.

(** [Driver::getAssignedCount] *)
Definition getAssignedCount (d : t) : nat := length (assignedRides d).

(** [Driver::clearAssignedRides] *)
Definition clearAssignedRides (d : t) (h : gmap loc control_block)
    : t * gmap loc control_block :=
  let vh := clear (assignedRides d) h in
  (mk (driverID d) (name d) (rating d) (fst vh), snd vh).

(** A run of [addRide] calls, in order. *)
Definition addRides (rides : list shared_ptr) (d : t) (h : gmap loc control_block)
    : t * gmap loc control_block :=
  foldl (fun dh ride => addRide ride (fst dh) (snd dh)) (d, h) rides.
End Driver.

(** ** Riders *)

Module Rider.
Record t : Type := mk {
  riderID : Z;
  name : string;
  requestedRides : list shared_ptr
}.

(** [Rider::Rider] *)
Definition ctor (id : Z) (n : string) : t := mk id n [].

(** [Rider::requestRide] *)
Definition requestRide (ride : shared_ptr) (r : t) (h : gmap loc control_block)
    : t * gmap loc control_block :=
  let vh := push_back (requestedRides r) ride h in
  (mk (riderID r) (name r) (fst vh), snd vh).

(** A run of [requestRide] calls, in order. *)
Definition requestRides (rides : list shared_ptr) (r : t) (h : gmap loc control_block)
    : t * gmap loc control_block :=
  foldl (fun rh ride => requestRide ride (fst rh) (snd rh)) (r, h) rides.

Fixpoint rides_loop (h : gmap loc control_block) (rs : list shared_ptr)
    (out : list item) : option (list item) :=
  match rs with
  | [] => Some out
  | None :: rs' => rides_loop h rs' out
  | Some l :: rs' =>
      match deref h l with
      | Some r => rides_loop h rs' (out ++ rideDetails r)
      | None => None
      end
  end.

(** [Rider::viewRides] *)
Definition viewRides (r : t) (h : gmap loc control_block) : option (list item) :=
  rides_loop h (requestedRides r)
    [Str "Rider ID: "; Int (riderID r);
     Str " | Name: "; Str (name r);
     Str " | Ride history ("; Size (length (requestedRides r)); Str "):"; Endl].
End Rider.

(** ** Reading a vector of pointers *)

(** The rides behind the non-null pointers of a vector, in order; [None]
    when a non-null pointer has lost its object. *)
Definition rides_of (h : gmap loc control_block) (rs : list shared_ptr)
    : option (list Ride) :=
  mapM (deref h) (omap id rs).

(** The sum that a loop [total += x] computes from [0.0]. *)
Definition sum_from_zero (xs : list double) : double :=
  foldl PrimFloat.add 0.0%float xs.

(** How often a location is stored in a vector. *)
Definition occurrences (l : loc) (rs : list shared_ptr) : nat :=
  length (filter (fun p => p = Some l) rs).

(** The object at [l] has an owner besides the pointers stored in the
    vector [v]: its use count exceeds the number of copies in [v]. *)
Definition owned_elsewhere (h : gmap loc control_block) (v : list shared_ptr)
    (l : loc) : Prop :=
  exists b, h !! l = Some b /\ occurrences l v < use_count b.

(** ** The objects of [main]

    The four rides of [main] with their pointers [r1] .. [r4], the vector
    [allRides], and the drivers and riders after the [addRide] and
    [requestRide] calls.  Every ride then has four owners: its local
    variable, [allRides], a driver and a rider. *)
Module Demo.
Definition s1 := make_shared (NewStandardRide "Downtown" "Airport" 18.4%float) initial_state.
Definition r1 : shared_ptr := fst s1.
Definition s2 := make_shared (NewPremiumRide "Mall" "University" 7.2%float (Some 1.5%float)) (snd s1).
Definition r2 : shared_ptr := fst s2.
Definition s3 := make_shared (NewStandardRide "Home" "Office" 4.5%float) (snd s2).
Definition r3 : shared_ptr := fst s3.
Definition s4 := make_shared (NewPremiumRide "Hotel" "Convention Center" 12.0%float None) (snd s3).
Definition r4 : shared_ptr := fst s4.

Definition allRides :=
  foldl (fun vh p => push_back (fst vh) p (snd vh)) ([], heap (snd s4)) [r1; r2; r3; r4].

Definition driver1 := Driver.addRides [r1; r3] (Driver.ctor 101 "Aisha Khan" (Some 4.92%float)) (snd allRides).
Definition driver2 := Driver.addRides [r2; r4] (Driver.ctor 102 "Carlos Mendez" (Some 4.80%float)) (snd driver1).
Definition rider1 := Rider.requestRides [r1; r2] (Rider.ctor 201 "Nabiha S.") (snd driver2).
Definition rider2 := Rider.requestRides [r3; r4] (Rider.ctor 202 "Sam Lee") (snd rider1).

(** The free store when the summaries are printed. *)
Definition h : gmap loc control_block := snd rider2.
End Demo.

(** A driver whose vector holds a null pointer between two rides. *)
Module WithNull.
Definition driver := Driver.addRides [Demo.r1; None; Demo.r3] (Driver.ctor 103 "Lee" None) Demo.h.
Definition h : gmap loc control_block := snd driver.
End WithNull.

(** A ride whose only owner is a driver's vector: the pointer returned by
    [make_shared] is stored with [addRide] and then destroyed. *)
Module SoleOwner.
Definition s1 := make_shared (NewStandardRide "Home" "Office" 4.5%float) initial_state.
Definition ride : shared_ptr := fst s1.
Definition added := Driver.addRide ride (Driver.ctor 104 "Kim" None) (heap (snd s1)).
Definition driver : Driver.t := fst added.
Definition h : gmap loc control_block := sp_release (snd added) ride.
End SoleOwner.

(** Three standard rides, assigned to two drivers in different orders. *)
Module Reorder.
Definition s1 := make_shared (NewStandardRide "A" "B" 18.4%float) initial_state.
Definition s2 := make_shared (NewStandardRide "C" "D" 4.5%float) (snd s1).
Definition s3 := make_shared (NewStandardRide "E" "F" 7.2%float) (snd s2).
Definition r1 : shared_ptr := fst s1.
Definition r2 : shared_ptr := fst s2.
Definition r3 : shared_ptr := fst s3.
Definition first := Driver.addRides [r1; r2; r3] (Driver.ctor 1 "first" None) (heap (snd s3)).
Definition second := Driver.addRides [r1; r3; r2] (Driver.ctor 2 "second" None) (snd first).
Definition h : gmap loc control_block := snd second.
End Reorder.

(** ** Ownership

    [owners] stands for all the [shared_ptr] values alive in the program:
    the local variables and the elements of every vector. *)

Definition add_owner (p : shared_ptr) (m : gmap loc nat) : gmap loc nat :=
  match p with
  | None => m
  | Some l => <[l := S (default 0 (m !! l))]> m
  end.

(** How many of the pointers [owners] own each location. *)
Definition owner_counts (owners : list shared_ptr) : gmap loc nat :=
  foldr add_owner ∅ owners.

(** The use count of every object is the number of its owners, and an
    object without owner is not in the free store. *)
Definition counts_match (h : gmap loc control_block) (owners : list shared_ptr) : Prop :=
  use_count <$> h = owner_counts owners.

(** Every use count in the free store is positive. *)
Definition counts_positive (h : gmap loc control_block) : Prop :=
  forall (l : loc) (b : control_block), h !! l = Some b -> 0 < use_count b.

(** The identifiers of the rides in the free store are below the counter,
    and no two objects have the same identifier. *)
Definition ids_identify (s : State) : Prop :=
  (forall (l : loc) (b : control_block),
      heap s !! l = Some b -> (1 <= rideID (object b) < nextID s)%Z) /\
  (forall (l1 l2 : loc) (b1 b2 : control_block),
      heap s !! l1 = Some b1 -> heap s !! l2 = Some b2 ->
      rideID (object b1) = rideID (object b2) -> l1 = l2).

(** ** Reading the output *)

(** The number of [std::endl] in an output. *)
Fixpoint endl_count (out : list item) : nat :=
  match out with
  | [] => 0
  | Endl :: out' => S (endl_count out')
  | _ :: out' => endl_count out'
  end.

(** ** Signs of binary64 values *)

(** Zero of either sign, a negative number or minus infinity. *)
Definition nonpositive (x : spec_float) : bool :=
  match x with
  | S754_zero _ | S754_infinity true | S754_finite true _ _ => true
  | _ => false
  end.

(** Zero of either sign, a positive number or plus infinity. *)
Definition nonnegative (x : spec_float) : bool :=
  match x with
  | S754_zero _ | S754_infinity false | S754_finite false _ _ => true
  | _ => false
  end.

(** Not positive, or a positive number whose exponent is at most [E]. *)
Definition at_most_exponent (E : Z) (x : spec_float) : Prop :=
  nonpositive x = true \/
  exists (m : positive) (e : Z), x = S754_finite false m e /\ (e <= E)%Z.

(** All the owners in [main] when the summaries are printed. *)
Module DemoOwners.
Definition owners : list shared_ptr :=
  [Demo.r1; Demo.r2; Demo.r3; Demo.r4] ++ fst Demo.allRides ++
  Driver.assignedRides (fst Demo.driver1) ++ Driver.assignedRides (fst Demo.driver2) ++
  Rider.requestedRides (fst Demo.rider1) ++ Rider.requestedRides (fst Demo.rider2).
End DemoOwners.

(** * Properties *)

(** ** The objects of [main], evaluated *)

Example demo_rides :
  rides_of Demo.h (fst Demo.allRides) =
  Some [mkRide 1 "Downtown" "Airport" 18.4 IsStandardRide;
        mkRide 2 "Mall" "University" 7.2 (IsPremiumRide 1.5);
        mkRide 3 "Home" "Office" 4.5 IsStandardRide;
        mkRide 4 "Hotel" "Convention Center" 12.0 (IsPremiumRide 2.0)].
Proof. vm_compute. reflexivity. Qed.

Example demo_fares :
  (fun rides : list Ride => fare <$> rides) <$> rides_of Demo.h (fst Demo.allRides) =
  Some [28.599999999999998; 29.0; 7.75; 62.0]%float.
Proof. vm_compute. reflexivity. Qed.

Example demo_fares_shown :
  (fun rides : list Ride => (fun r => hundredths (fare r)) <$> rides) <$> rides_of Demo.h (fst Demo.allRides) =
  Some [Some 2860; Some 2900; Some 775; Some 6200]%Z.
Proof. vm_compute. reflexivity. Qed.

Example demo_driver1_earnings :
  Driver.totalEarnings (fst Demo.driver1) Demo.h = Some 36.349999999999994%float /\
  hundredths 36.349999999999994 = Some 3635%Z.
Proof. split; vm_compute; reflexivity. Qed.

Example demo_driver1_summary :
  Driver.getDriverInfo (fst Demo.driver1) Demo.h =
  Some [Str "Driver ID: "; Int 101; Str " | Name: "; Str "Aisha Khan";
        Str " | Rating: "; Fixed2 4.92; Endl;
        Str "Assigned rides ("; Size 2; Str "):"; Endl;
        Str "[Standard] "; Str "Ride #"; Int 1;
        Str " | From: "; Str "Downtown"; Str " -> To: "; Str "Airport";
        Str " | Distance: "; Fixed2 18.4; Str " miles";
        Str " | Fare: $"; Fixed2 28.599999999999998; Endl;
        Str "[Standard] "; Str "Ride #"; Int 3;
        Str " | From: "; Str "Home"; Str " -> To: "; Str "Office";
        Str " | Distance: "; Fixed2 4.5; Str " miles";
        Str " | Fare: $"; Fixed2 7.75; Endl;
        Str "Total earnings from assigned rides: $"; Fixed2 36.349999999999994; Endl].
Proof. vm_compute. reflexivity. Qed.

Example demo_use_counts :
  use_count <$> Demo.h = {[ 1%positive := 4; 2%positive := 4; 3%positive := 4; 4%positive := 4 ]}.
Proof. vm_compute. reflexivity. Qed.

(** ** Facts on binary64 arithmetic *)

Section SpecFloatFacts.
Local Open Scope Z_scope.

Lemma SFcompare_antisym (x y : spec_float) (c : comparison) :
  SFcompare x y = Some c -> SFcompare y x = Some (CompOpp c).
Proof.
  destruct x as [sx|sx| |sx mx ex], y as [sy|sy| |sy my ey]; simpl;
    try discriminate;
    try (intros [= <-]; repeat match goal with b : bool |- _ => destruct b end;
         reflexivity).
  intros [= <-]. f_equal.
  destruct sx, sy; simpl; try reflexivity;
    rewrite (Z.compare_antisym ey ex);
    destruct (ey ?= ex) eqn:E; simpl; try reflexivity;
    rewrite (Pos.compare_cont_antisym mx my Eq); reflexivity.
Qed.

Lemma SFcompare_refl (x : spec_float) :
  x <> S754_nan -> SFcompare x x = Some Eq.
Proof.
  destruct x as [s|s| |s m e]; simpl; try congruence; intros _.
  - destruct s; reflexivity.
  - destruct s; rewrite Z.compare_refl, Pos.compare_cont_refl; reflexivity.
Qed.

Lemma SFcompare_nan_inv (x y : spec_float) :
  SFcompare x y = None -> x = S754_nan \/ y = S754_nan.
Proof.
  destruct x as [sx|sx| |sx mx ex], y as [sy|sy| |sy my ey]; simpl;
    try discriminate; auto.
Qed.

(** Shifting right keeps a mantissa non-negative. *)
Lemma shr_1_nonneg (mrs : shr_record) : 0 <= shr_m mrs -> 0 <= shr_m (shr_1 mrs).
Proof.
  destruct mrs as [m r s]; simpl.
  destruct m as [|[p|p|]|[p|p|]]; simpl; lia.
Qed.

Lemma iter_shr_1_nonneg (p : positive) (mrs : shr_record) :
  0 <= shr_m mrs -> 0 <= shr_m (SpecFloat.iter_pos shr_1 p mrs).
Proof.
  revert mrs. induction p as [p IH|p IH|]; intros mrs H; simpl.
  - apply IH, IH, shr_1_nonneg, H.
  - apply IH, IH, H.
  - apply shr_1_nonneg, H.
Qed.

Lemma shr_fexp_nonneg (prec emax m e : Z) (l : location) :
  0 <= m -> 0 <= shr_m (fst (shr_fexp prec emax m e l)).
Proof.
  intros H. unfold shr_fexp, shr.
  assert (H0 : 0 <= shr_m (shr_record_of_loc m l)).
  { destruct l as [|[]]; simpl; exact H. }
  destruct (fexp prec emax (Zdigits2 m + e) - e); simpl; auto.
  apply iter_shr_1_nonneg, H0.
Qed.

Lemma round_nearest_even_nonneg (m : Z) (l : location) :
  0 <= m -> 0 <= round_nearest_even m l.
Proof.
  intros H. destruct l as [|[]]; simpl; try lia.
  destruct (Z.even m); lia.
Qed.

(** Rounding a non-negative mantissa never produces a NaN. *)
Lemma binary_round_aux_not_nan (prec emax : Z) (s : bool) (m e : Z) (l : location) :
  0 <= m -> binary_round_aux prec emax s m e l <> S754_nan.
Proof.
  intros H. unfold binary_round_aux.
  pose proof (shr_fexp_nonneg prec emax m e l H) as H1.
  destruct (shr_fexp prec emax m e l) as [mrs1 e1]; simpl in H1.
  pose proof (shr_fexp_nonneg prec emax
                (round_nearest_even (shr_m mrs1) (loc_of_shr_record mrs1)) e1 loc_Exact
                (round_nearest_even_nonneg _ _ H1)) as H2.
  destruct (shr_fexp prec emax _ e1 loc_Exact) as [mrs2 e2]; simpl in H2.
  destruct (shr_m mrs2); try lia; try discriminate.
  destruct (e2 <=? emax - prec); discriminate.
Qed.

Lemma binary_round_not_nan (prec emax : Z) (s : bool) (m : positive) (e : Z) :
  binary_round prec emax s m e <> S754_nan.
Proof.
  unfold binary_round.
  destruct (shl_align m e _) as [mz ez].
  apply binary_round_aux_not_nan. lia.
Qed.

(** A product is a NaN only for a NaN operand or for zero times
    infinity. *)
Lemma SFmul_nan_inv (prec emax : Z) (x y : spec_float) :
  SFmul prec emax x y = S754_nan ->
  x = S754_nan \/ y = S754_nan \/
  (exists sx sy, x = S754_infinity sx /\ y = S754_zero sy) \/
  (exists sx sy, x = S754_zero sx /\ y = S754_infinity sy).
Proof.
  destruct x as [sx|sx| |sx mx ex], y as [sy|sy| |sy my ey]; simpl;
    try discriminate; eauto 7.
  intros H. exfalso. revert H. apply binary_round_aux_not_nan. lia.
Qed.

(** A sum is a NaN only for a NaN operand or for opposite infinities. *)
Lemma SFadd_nan_inv (prec emax : Z) (x y : spec_float) :
  SFadd prec emax x y = S754_nan ->
  x = S754_nan \/ y = S754_nan \/
  (exists s, x = S754_infinity s /\ y = S754_infinity (negb s)).
Proof.
  destruct x as [sx|sx| |sx mx ex], y as [sy|sy| |sy my ey]; simpl;
    try discriminate; auto.
  - destruct sx, sy; discriminate.
  - destruct sx, sy; try discriminate; eauto.
  - intros H. exfalso. revert H. unfold binary_normalize.
    destruct (_ + _); try discriminate; apply binary_round_not_nan.
Qed.
End SpecFloatFacts.

Section DoubleFacts.
Local Open Scope float_scope.

Lemma ltb_leb (a b : double) : (a <? b) = true -> (a <=? b) = true.
Proof.
  rewrite ltb_spec, leb_spec. unfold SFltb, SFleb.
  destruct (SFcompare _ _) as [[]|]; congruence.
Qed.

Lemma leb_not_nan (a b : double) : (a <=? b) = true -> Prim2SF b <> S754_nan.
Proof.
  rewrite leb_spec. unfold SFleb. intros H E. rewrite E in H.
  destruct (Prim2SF a); discriminate.
Qed.

Lemma leb_refl (a : double) : Prim2SF a <> S754_nan -> (a <=? a) = true.
Proof.
  intros H. rewrite leb_spec. unfold SFleb. rewrite SFcompare_refl; auto.
Qed.

Lemma not_ltb_leb (a b : double) :
  Prim2SF a <> S754_nan -> Prim2SF b <> S754_nan ->
  (a <? b) = false -> (b <=? a) = true.
Proof.
  intros Ha Hb. rewrite ltb_spec, leb_spec. unfold SFltb, SFleb.
  destruct (SFcompare (Prim2SF a) (Prim2SF b)) as [c|] eqn:E.
  - rewrite (SFcompare_antisym _ _ _ E). destruct c; simpl; congruence.
  - destruct (SFcompare_nan_inv _ _ E); contradiction.
Qed.

Lemma is_nan_Prim2SF (x : double) :
  is_nan x = false <-> Prim2SF x <> S754_nan.
Proof.
  unfold is_nan. rewrite FloatAxioms.eqb_spec. unfold SFeqb. split.
  - intros H E. rewrite E in H. discriminate.
  - intros H. rewrite SFcompare_refl; auto.
Qed.

Lemma is_nan_true_Prim2SF (x : double) :
  is_nan x = true -> Prim2SF x = S754_nan.
Proof.
  intros H. destruct (Prim2SF x) eqn:E; try reflexivity;
    assert (H' : is_nan x = false) by (apply is_nan_Prim2SF; rewrite E; discriminate);
    congruence.
Qed.

(** [std::max] never returns less than its first argument. *)
Lemma std_max_ge_left (a b : double) :
  Prim2SF a <> S754_nan -> (a <=? std_max a b) = true.
Proof.
  intros Ha. unfold std_max. destruct (a <? b) eqn:E.
  - apply ltb_leb, E.
  - apply leb_refl, Ha.
Qed.

(** With numbers on both sides, [std::max] is the maximum. *)
Lemma std_max_is_max (a b : double) :
  Prim2SF a <> S754_nan -> Prim2SF b <> S754_nan ->
  is_max_of (std_max a b) a b.
Proof.
  intros Ha Hb. unfold is_max_of, std_max. destruct (a <? b) eqn:E.
  - split; [right; reflexivity|]. split; [apply ltb_leb, E | apply leb_refl, Hb].
  - split; [left; reflexivity|]. split; [apply leb_refl, Ha | apply not_ltb_leb; auto].
Qed.

(** With a NaN as second argument, [std::max] returns the first. *)
Lemma std_max_nan_right (a b : double) :
  Prim2SF b = S754_nan -> std_max a b = a.
Proof.
  intros Hb. unfold std_max. rewrite ltb_spec, Hb. unfold SFltb.
  destruct (Prim2SF a); reflexivity.
Qed.

Lemma mul_not_nan (c d : double) (s : bool) (m : positive) (e : Z) :
  Prim2SF c = S754_finite s m e -> Prim2SF d <> S754_nan ->
  Prim2SF (c * d) <> S754_nan.
Proof.
  intros Hc Hd. rewrite mul_spec. intros H.
  apply SFmul_nan_inv in H.
  destruct H as [H|[H|[(sx & sy & H & _)|(sx & sy & H & _)]]];
    congruence.
Qed.

Lemma add_not_nan (x c : double) (s : bool) (m : positive) (e : Z) :
  Prim2SF x <> S754_nan -> Prim2SF c = S754_finite s m e ->
  Prim2SF (x + c) <> S754_nan.
Proof.
  intros Hx Hc. rewrite add_spec. intros H.
  apply SFadd_nan_inv in H.
  destruct H as [H|[H|(sx & _ & H)]]; congruence.
Qed.
End DoubleFacts.

(** ** Fares *)

Section FareFacts.
Local Open Scope float_scope.

Lemma nonneg_not_nan (d : double) : (0 <=? d) = true -> Prim2SF d <> S754_nan.
Proof. apply leb_not_nan. Qed.

Lemma fare_Ride_ctor (p q : string) (d : double) (s : State) :
  fare (fst (Ride_ctor p q d s)) = std_max 2.0 (1.0 * d).
Proof. reflexivity. Qed.

Lemma fare_StandardRide_ctor (p q : string) (d : double) (s : State) :
  fare (fst (StandardRide_ctor p q d s)) = std_max 3.0 (1.5 * d + 1.0).
Proof. reflexivity. Qed.

Lemma fare_PremiumRide_ctor (p q : string) (d : double) (m : option double) (s : State) :
  fare (fst (PremiumRide_ctor p q d m s)) = std_max 10.0 (2.5 * d * default 2.0 m + 2.0).
Proof. reflexivity. Qed.

Lemma float_neq (x y : double) : Prim2SF x <> Prim2SF y -> x <> y.
Proof. congruence. Qed.
End FareFacts.

(** C3: for every distance [d >= 0] the fare of a base [Ride] built with
    distance [d] is [std::max(2.0, 1.0 * d)], and that value is the greater
    of 2.0 and [1.0 * d]. *)
Theorem Ride_fare_formula (pickup dropoff : string) (d : double) (s : State) :
  (0 <=? d)%float = true ->
  let r := fst (Ride_ctor pickup dropoff d s) in
  fare r = std_max 2.0 (1.0 * d)%float /\
  is_max_of (fare r) 2.0 (1.0 * d)%float.
Proof.
  intros Hd r. subst r. rewrite fare_Ride_ctor. split; [reflexivity|].
  apply std_max_is_max.
  - vm_compute. discriminate.
  - eapply mul_not_nan; [vm_compute; reflexivity | apply nonneg_not_nan, Hd].
Qed.

Lemma Ride_fare_formula_witness :
  (0 <=? 7.25)%float = true /\
  fare (fst (Ride_ctor "Park" "Museum" 7.25 initial_state)) = 7.25%float /\
  is_max_of (fare (fst (Ride_ctor "Park" "Museum" 7.25 initial_state))) 2.0 (1.0 * 7.25)%float.
Proof.
  split; [reflexivity|].
  destruct (Ride_fare_formula "Park" "Museum" 7.25 initial_state eq_refl) as [H1 H2].
  split; [rewrite H1; reflexivity | exact H2].
Defined.

(** C1 (as stated, refuted): the fare of [StandardRide("Downtown",
    "Airport", 18.4)] is not the [double] 28.6. *)
Lemma StandardRide_fare_scenario_not_28_6 :
  fare (fst (StandardRide_ctor "Downtown" "Airport" 18.4 initial_state)) <> 28.6%float.
Proof. apply float_neq. vm_compute. discriminate. Qed.

(** C1 (amended): for every distance [d >= 0] the fare of a [StandardRide]
    is [std::max(3.0, 1.5 * d + 1.0)] in binary64 arithmetic, the greater of
    the two; for the distance 18.4 it is 0x1.c999999999999p+4
    (28.599999999999998), which is shown as 28.60 with two decimals. *)
Theorem StandardRide_fare_formula :
  (forall (pickup dropoff : string) (d : double) (s : State),
      (0 <=? d)%float = true ->
      let r := fst (StandardRide_ctor pickup dropoff d s) in
      fare r = std_max 3.0 (1.5 * d + 1.0)%float /\
      is_max_of (fare r) 3.0 (1.5 * d + 1.0)%float) /\
  (forall s : State,
      let r := fst (StandardRide_ctor "Downtown" "Airport" 18.4 s) in
      fare r = 0x1.c999999999999p+4%float /\ hundredths (fare r) = Some 2860%Z).
Proof.
  split.
  - intros p q d s Hd r. subst r. rewrite fare_StandardRide_ctor.
    split; [reflexivity|].
    apply std_max_is_max.
    + vm_compute. discriminate.
    + eapply add_not_nan; [|vm_compute; reflexivity].
      eapply mul_not_nan; [vm_compute; reflexivity | apply nonneg_not_nan, Hd].
  - intros s r. subst r. rewrite fare_StandardRide_ctor.
    split; vm_compute; reflexivity.
Qed.

Lemma StandardRide_fare_formula_witness :
  (0 <=? 4.5)%float = true /\
  fare (fst (StandardRide_ctor "Home" "Office" 4.5 initial_state)) = 7.75%float.
Proof.
  split; [reflexivity|].
  destruct (proj1 StandardRide_fare_formula "Home"%string "Office"%string 4.5%float initial_state eq_refl)
    as [H _].
  rewrite H. reflexivity.
Defined.

(** C2: for [d >= 0] and [m >= 0] the fare of a [PremiumRide] with distance
    [d] and multiplier [m] is [std::max(10.0, 2.5 * d * m + 2.0)], the
    greater of the two whenever the second is a number, and 10.0 when it is a
    NaN (zero times infinity); a [PremiumRide] built without a multiplier is
    the one built with 2.0; the fare for distance 12.0 and the default
    multiplier is 62.0. *)
Theorem PremiumRide_fare_formula :
  (forall (pickup dropoff : string) (d m : double) (s : State),
      (0 <=? d)%float = true -> (0 <=? m)%float = true ->
      let r := fst (PremiumRide_ctor pickup dropoff d (Some m) s) in
      let x := (2.5 * d * m + 2.0)%float in
      fare r = std_max 10.0 x /\
      (is_nan x = false -> is_max_of (fare r) 10.0 x) /\
      (is_nan x = true -> fare r = 10.0%float)) /\
  (forall (pickup dropoff : string) (d : double) (s : State),
      PremiumRide_ctor pickup dropoff d None s =
      PremiumRide_ctor pickup dropoff d (Some 2.0%float) s) /\
  (forall s : State,
      fare (fst (PremiumRide_ctor "Hotel" "Convention Center" 12.0 None s)) = 62.0%float).
Proof.
  split; [|split].
  - intros p q d m s _ _ r x. subst r x. rewrite fare_PremiumRide_ctor. simpl.
    split; [reflexivity|]. split; intros Hx.
    + apply std_max_is_max.
      * vm_compute. discriminate.
      * apply is_nan_Prim2SF, Hx.
    + apply std_max_nan_right, is_nan_true_Prim2SF, Hx.
  - reflexivity.
  - intros s. rewrite fare_PremiumRide_ctor. vm_compute. reflexivity.
Qed.

Lemma PremiumRide_fare_formula_witness :
  (0 <=? 7.2)%float = true /\ (0 <=? 1.5)%float = true /\
  is_nan (2.5 * 7.2 * 1.5 + 2.0)%float = false /\
  fare (fst (PremiumRide_ctor "Mall" "University" 7.2 (Some 1.5%float) initial_state)) = 29.0%float /\
  is_max_of (fare (fst (PremiumRide_ctor "Mall" "University" 7.2 (Some 1.5%float) initial_state)))
    10.0 (2.5 * 7.2 * 1.5 + 2.0)%float.
Proof.
  split; [reflexivity|]. split; [reflexivity|]. split; [reflexivity|].
  destruct (proj1 PremiumRide_fare_formula "Mall"%string "University"%string 7.2%float 1.5%float
              initial_state eq_refl eq_refl) as (H1 & H2 & _).
  split; [rewrite H1; reflexivity | apply H2; reflexivity].
Defined.

(** C9: for every ride object, whatever its distance (negative, infinite
    or NaN) and whatever its multiplier, the fare is at least the floor of
    its class: 2.0 for [Ride], 3.0 for [StandardRide], 10.0 for
    [PremiumRide]; the constructors accept every distance and multiplier, so
    this holds for every ride they build. *)
Theorem fare_never_below_floor :
  (forall r : Ride,
      match dynamic_type r with
      | IsRide => (2.0 <=? fare r)%float
      | IsStandardRide => (3.0 <=? fare r)%float
      | IsPremiumRide _ => (10.0 <=? fare r)%float
      end = true) /\
  (forall (p q : string) (d : double) (m : option double) (s : State),
      (2.0 <=? fare (fst (Ride_ctor p q d s)))%float = true /\
      (3.0 <=? fare (fst (StandardRide_ctor p q d s)))%float = true /\
      (10.0 <=? fare (fst (PremiumRide_ctor p q d m s)))%float = true).
Proof.
  assert (H : forall r : Ride,
             match dynamic_type r with
             | IsRide => (2.0 <=? fare r)%float
             | IsStandardRide => (3.0 <=? fare r)%float
             | IsPremiumRide _ => (10.0 <=? fare r)%float
             end = true).
  { intros r. unfold fare. destruct (dynamic_type r);
      apply std_max_ge_left; vm_compute; discriminate. }
  split; [exact H|].
  intros p q d m s. split; [|split].
  - apply (H (fst (Ride_ctor p q d s))).
  - apply (H (fst (StandardRide_ctor p q d s))).
  - apply (H (fst (PremiumRide_ctor p q d m s))).
Qed.

(** ** Construction and the identifier counter *)

Section CounterFacts.
Local Open Scope Z_scope.

Lemma int_wrap_id (z : Z) : INT_MIN <= z <= INT_MAX -> int_wrap z = z.
Proof.
  unfold INT_MIN, INT_MAX, int_wrap. intros H.
  rewrite Z.mod_small; lia.
Qed.


(** Every constructor takes the counter's value as identifier, advances
    the counter and leaves the free store alone. *)
Lemma construct_effect (e : new_expr) (s : State) :
  rideID (fst (construct e s)) = nextID s /\
  snd (construct e s) = mkState (int_wrap (nextID s + 1)) (heap s).
Proof. destruct e; split; reflexivity. Qed.


End CounterFacts.




(** C5 (as stated, refuted): constructing a ride with the negative distance
    -1.0 does not throw; it returns the ride, with identifier 1, and
    advances the counter to 2.  And when a construction does fail, by a
    string copy that cannot be allocated, the counter has advanced to 2 all
    the same: the identifier 1 is consumed. *)
Lemma create_negative_distance_returns :
  (-1.0 <? 0)%float = true /\
  create (fun _ => true) (NewStandardRide "A" "B" (-1.0)) initial_state =
    (Returns (mkRide 1 "A" "B" (-1.0) IsStandardRide), mkState 2 ∅) /\
  fst (create (fun _ => true) (NewStandardRide "A" "B" (-1.0)) initial_state) <>
    Throws InvalidArgument /\
  create (fun _ => false) (NewStandardRide "A" "B" (-1.0)) initial_state =
    (Throws BadAlloc, mkState 2 ∅).
Proof.
  split; [reflexivity|]. split; [reflexivity|]. split; [discriminate|reflexivity].
Qed.

(** C5 (amended): construction does not validate the distance and never
    throws [InvalidArgument].  For every pickup, dropoff and distance,
    negative distances included, a construction whose two string copies can
    be allocated returns the ride with these members and the counter's value
    as identifier; one whose string copy cannot be allocated throws
    [std::bad_alloc] and leaves no ride.  Either way the only effect is that
    the counter is advanced by one; the free store is unchanged. *)
Theorem create_outcome (copy_ok : string -> bool) (e : new_expr) (s : State) :
  snd (create copy_ok e s) = mkState (int_wrap (nextID s + 1)) (heap s) /\
  fst (create copy_ok e s) <> Throws InvalidArgument /\
  (copy_ok (fst (copied_strings e)) = true ->
   copy_ok (snd (copied_strings e)) = true ->
   match e with
   | NewRide p q d =>
       fst (create copy_ok e s) = Returns (mkRide (nextID s) p q d IsRide)
   | NewStandardRide p q d =>
       fst (create copy_ok e s) = Returns (mkRide (nextID s) p q d IsStandardRide)
   | NewPremiumRide p q d m =>
       fst (create copy_ok e s) =
       Returns (mkRide (nextID s) p q d (IsPremiumRide (default 2.0%float m)))
   end) /\
  (copy_ok (fst (copied_strings e)) = false \/
   copy_ok (snd (copied_strings e)) = false ->
   fst (create copy_ok e s) = Throws BadAlloc).
Proof.
  unfold create.
  destruct (construct_effect e s) as [_ Hst].
  assert (Hr : fst (construct e s) =
               match e with
               | NewRide p q d => mkRide (nextID s) p q d IsRide
               | NewStandardRide p q d => mkRide (nextID s) p q d IsStandardRide
               | NewPremiumRide p q d m =>
                   mkRide (nextID s) p q d (IsPremiumRide (default 2.0%float m))
               end) by (destruct e; reflexivity).
  destruct (construct e s) as [r s1]. simpl in Hst, Hr. subst s1 r.
  destruct (copied_strings e) as [pickup dropoff]. simpl.
  destruct (copy_ok pickup) eqn:Hp; destruct (copy_ok dropoff) eqn:Hq; simpl;
    (split; [reflexivity|]); (split; [discriminate|]); split;
    try (intros; discriminate); try (intros; reflexivity);
    try (destruct e; intros; reflexivity);
    try (intros [H|H]; discriminate).
Qed.

Lemma create_outcome_witness :
  (fun _ : string => true) (fst (copied_strings (NewPremiumRide "A" "B" (-1.0) None))) = true /\
  fst (create (fun _ => true) (NewPremiumRide "A" "B" (-1.0) None) initial_state) =
    Returns (mkRide 1 "A" "B" (-1.0) (IsPremiumRide 2.0)) /\
  fst (create (fun p => String.eqb p "A") (NewPremiumRide "A" "B" (-1.0) None) initial_state) =
    Throws BadAlloc.
Proof.
  split; [reflexivity|].
  destruct (create_outcome (fun _ => true) (NewPremiumRide "A" "B" (-1.0) None) initial_state)
    as (_ & _ & H1 & _).
  destruct (create_outcome (fun p => String.eqb p "A") (NewPremiumRide "A" "B" (-1.0) None)
              initial_state) as (_ & _ & _ & H2).
  split; [apply H1; reflexivity | apply H2; right; reflexivity].
Defined.

(** ** Drivers and the free store *)

Section HeapFacts.
Implicit Types (h : gmap loc control_block) (p : shared_ptr) (l : loc).

Lemma deref_sp_copy p h l : deref (sp_copy p h) l = deref h l.
Proof.
  destruct p as [l0|]; [|reflexivity]. unfold deref, sp_copy.
  rewrite lookup_alter. case_decide as E; [|reflexivity].
  subst l0. destruct (h !! l); reflexivity.
Qed.

(** Releasing a pointer changes no ride: whatever is in the free store
    afterwards was there before, with the same object. *)
Lemma sp_release_lookup h p l (b' : control_block) :
  sp_release h p !! l = Some b' ->
  exists b, h !! l = Some b /\ object b' = object b.
Proof.
  destruct p as [l0|]; simpl; [|eauto].
  destruct (h !! l0) as [b0|] eqn:E0; [|eauto].
  destruct (use_count b0) as [|[|n]].
  - rewrite lookup_delete_Some. intros [_ H]. eauto.
  - rewrite lookup_delete_Some. intros [_ H]. eauto.
  - rewrite lookup_insert_Some. intros [[<- <-]|[_ H]]; eauto.
Qed.

Lemma release_all_lookup (ps : list shared_ptr) h l (b' : control_block) :
  foldl sp_release h ps !! l = Some b' ->
  exists b, h !! l = Some b /\ object b' = object b.
Proof.
  revert h. induction ps as [|p ps IH]; intros h; simpl; [eauto|].
  intros H. apply IH in H as (b1 & H1 & E1).
  apply sp_release_lookup in H1 as (b & H & E). exists b. split; congruence.
Qed.

Lemma occurrences_cons_eq l (ps : list shared_ptr) :
  occurrences l (Some l :: ps) = S (occurrences l ps).
Proof. unfold occurrences. rewrite filter_cons_True by reflexivity. reflexivity. Qed.

Lemma occurrences_cons_ne l p (ps : list shared_ptr) :
  p <> Some l -> occurrences l (p :: ps) = occurrences l ps.
Proof. intros H. unfold occurrences. rewrite filter_cons_False by exact H. reflexivity. Qed.

(** An object with more owners than the released pointers survives, with
    the same ride and the remaining owners. *)
Lemma release_all_survives (ps : list shared_ptr) h l (b : control_block) :
  h !! l = Some b ->
  occurrences l ps < use_count b ->
  foldl sp_release h ps !! l =
    Some (mkBlock (object b) (use_count b - occurrences l ps)).
Proof.
  revert h b. induction ps as [|p ps IH]; intros h b Hl Hocc.
  - simpl. rewrite Hl. destruct b as [r n]; simpl. do 2 f_equal.
    unfold occurrences. simpl. lia.
  - simpl. destruct (decide (p = Some l)) as [->|Hne].
    + rewrite occurrences_cons_eq in Hocc |- *.
      simpl. rewrite Hl.
      destruct (use_count b) as [|[|n]] eqn:En; [lia|lia|].
      rewrite (IH _ (mkBlock (object b) (S n))); simpl.
      * do 2 f_equal.
      * apply lookup_insert_eq.
      * lia.
    + rewrite occurrences_cons_ne in Hocc |- * by exact Hne.
      apply IH; [|exact Hocc].
      destruct p as [l0|]; simpl; [|exact Hl].
      assert (l0 <> l) by congruence.
      destruct (h !! l0) as [b0|]; [|exact Hl].
      destruct (use_count b0) as [|[|n]];
        rewrite ?lookup_delete_ne, ?lookup_insert_ne by assumption; exact Hl.
Qed.

Lemma release_all_absent (ps : list shared_ptr) h l :
  h !! l = None -> foldl sp_release h ps !! l = None.
Proof.
  intros H. destruct (foldl sp_release h ps !! l) as [b'|] eqn:E; [|reflexivity].
  apply release_all_lookup in E as (b & Hb & _). congruence.
Qed.

(** An object all of whose owners are among the released pointers is
    deleted. *)
Lemma release_all_deletes (ps : list shared_ptr) h l (b : control_block) :
  h !! l = Some b ->
  0 < use_count b <= occurrences l ps ->
  foldl sp_release h ps !! l = None.
Proof.
  revert h b. induction ps as [|p ps IH]; intros h b Hl Hocc.
  - unfold occurrences in Hocc. simpl in Hocc. lia.
  - simpl. destruct (decide (p = Some l)) as [->|Hne].
    + rewrite occurrences_cons_eq in Hocc.
      simpl. rewrite Hl.
      destruct (use_count b) as [|[|n]] eqn:En; [lia| |].
      * apply release_all_absent, lookup_delete_eq.
      * apply (IH _ (mkBlock (object b) (S n))); [apply lookup_insert_eq|simpl; lia].
    + rewrite occurrences_cons_ne in Hocc by exact Hne.
      apply (IH _ b); [|exact Hocc].
      destruct p as [l0|]; simpl; [|exact Hl].
      assert (l0 <> l) by congruence.
      destruct (h !! l0) as [b0|]; [|exact Hl].
      destruct (use_count b0) as [|[|n]];
        rewrite ?lookup_delete_ne, ?lookup_insert_ne by assumption; exact Hl.
Qed.

Lemma rides_of_null h (ps : list shared_ptr) : rides_of h (None :: ps) = rides_of h ps.
Proof. reflexivity. Qed.

Lemma rides_of_cons h l (ps : list shared_ptr) :
  rides_of h (Some l :: ps) =
  match deref h l with
  | Some r => cons r <$> rides_of h ps
  | None => None
  end.
Proof.
  unfold rides_of. csimpl. destruct (deref h l); [|reflexivity].
  csimpl. destruct (mapM (deref h) (omap id ps)); reflexivity.
Qed.

Lemma rides_of_snoc_null h (ps : list shared_ptr) :
  rides_of h (ps ++ [None]) = rides_of h ps.
Proof. unfold rides_of. rewrite omap_app. csimpl. rewrite app_nil_r. reflexivity. Qed.

Lemma rides_of_length h (ps : list shared_ptr) (rides : list Ride) :
  rides_of h ps = Some rides -> length rides <= length ps.
Proof.
  revert rides. induction ps as [|[l|] ps IH]; intros rides.
  - intros [= <-]. reflexivity.
  - rewrite rides_of_cons. destruct (deref h l); [|discriminate].
    destruct (rides_of h ps) as [rs|]; [|discriminate].
    intros [= <-]. simpl. specialize (IH rs eq_refl). lia.
  - rewrite rides_of_null. intros H. specialize (IH rides H). simpl. lia.
Qed.

Lemma rides_of_snoc h l (ps : list shared_ptr) (rides : list Ride) (r : Ride) :
  rides_of h ps = Some rides -> deref h l = Some r ->
  rides_of h (ps ++ [Some l]) = Some (rides ++ [r]).
Proof.
  intros H Hl. revert rides H. induction ps as [|[l0|] ps IH]; intros rides.
  - intros [= <-]. simpl. rewrite rides_of_cons, Hl. reflexivity.
  - simpl. rewrite !rides_of_cons. destruct (deref h l0); [|discriminate].
    destruct (rides_of h ps) as [rs|]; [|discriminate].
    intros [= <-]. rewrite (IH rs eq_refl). reflexivity.
  - simpl. rewrite !rides_of_null. apply IH.
Qed.

(** Vectors read the same in two free stores that agree on their
    pointers. *)
Lemma rides_of_ext h h' (ps : list shared_ptr) :
  (forall l, Some l ∈ ps -> deref h' l = deref h l) ->
  rides_of h' ps = rides_of h ps.
Proof.
  induction ps as [|[l|] ps IH]; intros H.
  - reflexivity.
  - rewrite !rides_of_cons, H by left.
    rewrite IH; [reflexivity|]. intros l' Hl'. apply H. right. exact Hl'.
  - rewrite !rides_of_null. apply IH. intros l' Hl'. apply H. right. exact Hl'.
Qed.

(** The loop of [getDriverInfo] in closed form. *)
Lemma Driver_rides_loop_spec h (ps : list shared_ptr) (out : list item) (acc : double) :
  Driver.rides_loop h ps out acc =
  (fun rides => (out ++ concat (rideDetails <$> rides),
                 foldl PrimFloat.add acc (fare <$> rides))) <$> rides_of h ps.
Proof.
  revert out acc. induction ps as [|[l|] ps IH]; intros out acc.
  - simpl. rewrite app_nil_r. reflexivity.
  - rewrite rides_of_cons. simpl. destruct (deref h l) as [r|]; [|reflexivity].
    rewrite IH. destruct (rides_of h ps) as [rs|]; [|reflexivity].
    simpl. rewrite <- app_assoc. reflexivity.
  - rewrite rides_of_null. simpl. apply IH.
Qed.

(** The loop of [viewRides] in closed form. *)
Lemma Rider_rides_loop_spec h (ps : list shared_ptr) (out : list item) :
  Rider.rides_loop h ps out =
  (fun rides => out ++ concat (rideDetails <$> rides)) <$> rides_of h ps.
Proof.
  revert out. induction ps as [|[l|] ps IH]; intros out.
  - simpl. rewrite app_nil_r. reflexivity.
  - rewrite rides_of_cons. simpl. destruct (deref h l) as [r|]; [|reflexivity].
    rewrite IH. destruct (rides_of h ps) as [rs|]; [|reflexivity].
    simpl. rewrite <- app_assoc. reflexivity.
  - rewrite rides_of_null. simpl. apply IH.
Qed.

Lemma addRides_spec (rides : list shared_ptr) (d : Driver.t) h :
  Driver.addRides rides d h =
  (Driver.mk (Driver.driverID d) (Driver.name d) (Driver.rating d)
     (Driver.assignedRides d ++ rides),
   foldl (fun h p => sp_copy p h) h rides).
Proof.
  unfold Driver.addRides. revert d h.
  induction rides as [|p rides IH]; intros d h.
  - simpl. rewrite app_nil_r. destruct d; reflexivity.
  - cbn [foldl fst snd]. unfold Driver.addRide at 2. rewrite IH.
    cbn [foldl Driver.driverID Driver.name Driver.rating Driver.assignedRides].
    unfold push_back. cbn [fst snd]. rewrite <- app_assoc. reflexivity.
Qed.
End HeapFacts.

Section DriverFacts.
Implicit Types (h : gmap loc control_block) (d : Driver.t).

Lemma totalEarnings_spec d h :
  Driver.totalEarnings d h =
  (fun rides => sum_from_zero (fare <$> rides)) <$> rides_of h (Driver.assignedRides d).
Proof.
  unfold Driver.totalEarnings. rewrite Driver_rides_loop_spec.
  destruct (rides_of h (Driver.assignedRides d)); reflexivity.
Qed.

Lemma getDriverInfo_spec d h :
  Driver.getDriverInfo d h =
  (fun rides =>
     Driver.header d ++ concat (rideDetails <$> rides) ++
     [Str "Total earnings from assigned rides: $";
      Fixed2 (sum_from_zero (fare <$> rides)); Endl])
    <$> rides_of h (Driver.assignedRides d).
Proof.
  unfold Driver.getDriverInfo. rewrite Driver_rides_loop_spec.
  destruct (rides_of h (Driver.assignedRides d)); [|reflexivity].
  cbn [fmap option_fmap option_map]. rewrite <- app_assoc. reflexivity.
Qed.

Lemma viewRides_spec (r : Rider.t) h :
  Rider.viewRides r h =
  (fun rides =>
     [Str "Rider ID: "; Int (Rider.riderID r);
      Str " | Name: "; Str (Rider.name r);
      Str " | Ride history ("; Size (length (Rider.requestedRides r)); Str "):"; Endl]
     ++ concat (rideDetails <$> rides))
    <$> rides_of h (Rider.requestedRides r).
Proof. unfold Rider.viewRides. apply Rider_rides_loop_spec. Qed.

Lemma float_Some_neq (x y : double) : Prim2SF x <> Prim2SF y -> Some x <> Some y.
Proof. congruence. Qed.
End DriverFacts.

(** C6 (as stated, refuted): two drivers hold the same three rides, in
    different orders, and their total earnings differ. *)
Lemma totalEarnings_depends_on_order :
  Driver.assignedRides (fst Reorder.first) ≡ₚ Driver.assignedRides (fst Reorder.second) /\
  Driver.totalEarnings (fst Reorder.first) Reorder.h = Some 48.14999999999999%float /\
  Driver.totalEarnings (fst Reorder.second) Reorder.h = Some 48.15%float /\
  Driver.totalEarnings (fst Reorder.first) Reorder.h <>
  Driver.totalEarnings (fst Reorder.second) Reorder.h.
Proof.
  split; [|split; [|split]].
  - change (Driver.assignedRides (fst Reorder.first))
      with [Reorder.r1; Reorder.r2; Reorder.r3].
    change (Driver.assignedRides (fst Reorder.second))
      with [Reorder.r1; Reorder.r3; Reorder.r2].
    apply perm_skip, perm_swap.
  - vm_compute. reflexivity.
  - vm_compute. reflexivity.
  - replace (Driver.totalEarnings (fst Reorder.first) Reorder.h)
      with (Some 48.14999999999999%float) by (vm_compute; reflexivity).
    replace (Driver.totalEarnings (fst Reorder.second) Reorder.h)
      with (Some 48.15%float) by (vm_compute; reflexivity).
    apply float_Some_neq. vm_compute. discriminate.
Qed.

(** C6 (amended): when [rides] are the rides behind the non-null pointers
    of [assignedRides], in the order of the vector, the total earnings that
    [getDriverInfo] computes and prints are the binary64 sum of their fares
    accumulated from 0.0 in that order; null pointers are passed over; the
    value is computed from the current vector on each call, so a ride added
    with [addRide] is in the next total. *)
Theorem totalEarnings_sums_in_order (d : Driver.t) (h : gmap loc control_block)
    (rides : list Ride) :
  rides_of h (Driver.assignedRides d) = Some rides ->
  Driver.totalEarnings d h = Some (sum_from_zero (fare <$> rides)) /\
  Driver.getDriverInfo d h =
    Some (Driver.header d ++ concat (rideDetails <$> rides) ++
          [Str "Total earnings from assigned rides: $";
           Fixed2 (sum_from_zero (fare <$> rides)); Endl]) /\
  (forall (l : loc) (r : Ride),
      deref h l = Some r ->
      Driver.totalEarnings (fst (Driver.addRide (Some l) d h))
                           (snd (Driver.addRide (Some l) d h)) =
      Some (sum_from_zero (fare <$> rides) + fare r)%float).
Proof.
  intros H. rewrite totalEarnings_spec, getDriverInfo_spec, H.
  split; [reflexivity|]. split; [reflexivity|].
  intros l r Hl. rewrite totalEarnings_spec.
  cbn [Driver.addRide push_back fst snd Driver.assignedRides].
  rewrite (rides_of_ext h) by (intros; apply deref_sp_copy).
  rewrite (rides_of_snoc h l _ rides r H Hl).
  cbn [fmap option_fmap option_map].
  unfold sum_from_zero. rewrite fmap_app, foldl_app. reflexivity.
Qed.

Lemma totalEarnings_sums_in_order_witness :
  Driver.assignedRides (fst WithNull.driver) = [Some 1%positive; None; Some 3%positive] /\
  Driver.totalEarnings (fst WithNull.driver) WithNull.h = Some 36.349999999999994%float.
Proof.
  split; [reflexivity|].
  destruct (totalEarnings_sums_in_order (fst WithNull.driver) WithNull.h
              [mkRide 1 "Downtown" "Airport" 18.4 IsStandardRide;
               mkRide 3 "Home" "Office" 4.5 IsStandardRide]) as (H & _ & _).
  - vm_compute. reflexivity.
  - rewrite H. vm_compute. reflexivity.
Defined.

(** C7: [addRide] puts the given pointer at the end of [assignedRides] and
    keeps everything before it; after a run of [addRide] calls the vector is
    the old one followed by the pointers given, repeated ones included, so
    the count has grown by the number of calls, and on a new or a cleared
    driver it is the number of calls. *)
Theorem addRide_appends_and_counts (rides : list shared_ptr) (d : Driver.t)
    (h : gmap loc control_block) :
  (forall ride : shared_ptr,
      Driver.assignedRides (fst (Driver.addRide ride d h)) =
      Driver.assignedRides d ++ [ride]) /\
  Driver.assignedRides (fst (Driver.addRides rides d h)) =
    Driver.assignedRides d ++ rides /\
  Driver.getAssignedCount (fst (Driver.addRides rides d h)) =
    Driver.getAssignedCount d + length rides /\
  Driver.getAssignedCount
    (fst (Driver.addRides rides (fst (Driver.clearAssignedRides d h))
            (snd (Driver.clearAssignedRides d h)))) = length rides /\
  (forall (id : Z) (n : string) (r : option double),
      Driver.getAssignedCount (fst (Driver.addRides rides (Driver.ctor id n r) h)) =
      length rides).
Proof.
  split; [reflexivity|].
  unfold Driver.getAssignedCount. rewrite !addRides_spec. simpl.
  split; [reflexivity|]. split; [apply length_app|]. split; [reflexivity|].
  intros id n r. rewrite addRides_spec. reflexivity.
Qed.

(** C8 (as stated, refuted): a ride in the collection whose only owner is
    the cleared vector does not keep its members: [clearAssignedRides]
    destroys it. *)
Lemma clearAssignedRides_destroys_sole_owned :
  counts_match SoleOwner.h (Driver.assignedRides SoleOwner.driver) /\
  Driver.assignedRides SoleOwner.driver = [Some 1%positive] /\
  deref SoleOwner.h 1%positive = Some (mkRide 1 "Home" "Office" 4.5 IsStandardRide) /\
  deref (snd (Driver.clearAssignedRides SoleOwner.driver SoleOwner.h)) 1%positive = None.
Proof. repeat split; vm_compute; reflexivity. Qed.

(** C8 (amended): after [clearAssignedRides] the count is 0 and the
    driver's other members are kept; no ride in the free store has changed
    (a ride that can still be read is the ride that was there, so its
    identifier, pickup, dropoff, distance and fare are the same); every ride
    that has an owner besides the cleared vector is still there; what any
    other vector of such rides reads, what another driver's [getDriverInfo]
    and a rider's [viewRides] print, is what it was before.  A ride owned by
    the cleared vector alone is deleted. *)
Theorem clearAssignedRides_frame (d : Driver.t) (h : gmap loc control_block) :
  let d' := fst (Driver.clearAssignedRides d h) in
  let h' := snd (Driver.clearAssignedRides d h) in
  let v := Driver.assignedRides d in
  Driver.getAssignedCount d' = 0 /\
  (Driver.driverID d', Driver.name d', Driver.rating d') =
    (Driver.driverID d, Driver.name d, Driver.rating d) /\
  (forall (l : loc) (r : Ride), deref h' l = Some r -> deref h l = Some r) /\
  (forall l : loc, owned_elsewhere h v l -> deref h' l = deref h l) /\
  (forall ps : list shared_ptr,
      (forall l : loc, Some l ∈ ps -> owned_elsewhere h v l) ->
      rides_of h' ps = rides_of h ps) /\
  (forall other : Driver.t,
      (forall l : loc, Some l ∈ Driver.assignedRides other -> owned_elsewhere h v l) ->
      Driver.getDriverInfo other h' = Driver.getDriverInfo other h) /\
  (forall rider : Rider.t,
      (forall l : loc, Some l ∈ Rider.requestedRides rider -> owned_elsewhere h v l) ->
      Rider.viewRides rider h' = Rider.viewRides rider h) /\
  (forall (l : loc) (b : control_block),
      h !! l = Some b -> 0 < use_count b <= occurrences l v -> deref h' l = None).
Proof.
  intros d' h' v. subst d' h' v. simpl.
  assert (Hsurv : forall l : loc,
             owned_elsewhere h (Driver.assignedRides d) l ->
             deref (foldl sp_release h (Driver.assignedRides d)) l = deref h l).
  { intros l (b & Hl & Hocc). unfold deref.
    rewrite (release_all_survives _ _ _ _ Hl Hocc), Hl. reflexivity. }
  assert (Hrides : forall ps : list shared_ptr,
             (forall l : loc, Some l ∈ ps -> owned_elsewhere h (Driver.assignedRides d) l) ->
             rides_of (foldl sp_release h (Driver.assignedRides d)) ps = rides_of h ps).
  { intros ps Hps. apply rides_of_ext. intros l Hl. apply Hsurv, Hps, Hl. }
  split; [reflexivity|]. split; [reflexivity|].
  split; [|split; [exact Hsurv|split; [exact Hrides|split; [|split]]]].
  - intros l r. unfold deref.
    destruct (foldl sp_release h (Driver.assignedRides d) !! l) as [b'|] eqn:E;
      [|discriminate].
    apply release_all_lookup in E as (b & Hb & Eb).
    rewrite Hb. simpl. congruence.
  - intros other Hother. rewrite !getDriverInfo_spec, Hrides by exact Hother.
    reflexivity.
  - intros rider Hrider. rewrite !viewRides_spec, Hrides by exact Hrider.
    reflexivity.
  - intros l b Hl Hocc. unfold deref.
    rewrite (release_all_deletes _ _ _ _ Hl Hocc). reflexivity.
Qed.

Lemma clearAssignedRides_frame_witness :
  owned_elsewhere Demo.h (Driver.assignedRides (fst Demo.driver1)) 1%positive /\
  deref (snd (Driver.clearAssignedRides (fst Demo.driver1) Demo.h)) 1%positive =
    Some (mkRide 1 "Downtown" "Airport" 18.4 IsStandardRide) /\
  Rider.viewRides (fst Demo.rider1) (snd (Driver.clearAssignedRides (fst Demo.driver1) Demo.h)) =
  Rider.viewRides (fst Demo.rider1) Demo.h /\
  SoleOwner.h !! 1%positive =
    Some (mkBlock (mkRide 1 "Home" "Office" 4.5 IsStandardRide) 1) /\
  0 < 1 <= occurrences 1%positive (Driver.assignedRides SoleOwner.driver) /\
  deref (snd (Driver.clearAssignedRides SoleOwner.driver SoleOwner.h)) 1%positive = None.
Proof.
  assert (H1 : owned_elsewhere Demo.h (Driver.assignedRides (fst Demo.driver1)) 1%positive).
  { exists (mkBlock (mkRide 1 "Downtown" "Airport" 18.4 IsStandardRide) 4).
    split; [vm_compute; reflexivity | vm_compute; lia]. }
  assert (H2 : owned_elsewhere Demo.h (Driver.assignedRides (fst Demo.driver1)) 2%positive).
  { exists (mkBlock (mkRide 2 "Mall" "University" 7.2 (IsPremiumRide 1.5)) 4).
    split; [vm_compute; reflexivity | vm_compute; lia]. }
  assert (H3 : SoleOwner.h !! 1%positive =
               Some (mkBlock (mkRide 1 "Home" "Office" 4.5 IsStandardRide) 1))
    by (vm_compute; reflexivity).
  assert (H4 : 0 < 1 <= occurrences 1%positive (Driver.assignedRides SoleOwner.driver))
    by (vm_compute; lia).
  destruct (clearAssignedRides_frame (fst Demo.driver1) Demo.h)
    as (_ & _ & _ & H & _ & _ & Hrider & _).
  destruct (clearAssignedRides_frame SoleOwner.driver SoleOwner.h)
    as (_ & _ & _ & _ & _ & _ & _ & Hgone).
  split; [exact H1|]. split; [|split; [|split; [exact H3|split; [exact H4|]]]].
  - rewrite (H 1%positive H1). vm_compute. reflexivity.
  - apply Hrider.
    change (Rider.requestedRides (fst Demo.rider1)) with [Some 1%positive; Some 2%positive].
    intros l Hl.
    apply elem_of_cons in Hl as [[= ->]|Hl];
      [exact H1|apply elem_of_cons in Hl as [[= ->]|Hl]; [exact H2|inversion Hl]].
  - apply (Hgone 1%positive _ H3 H4).
Defined.

(** C10: adding a null pointer with [addRide] raises [getAssignedCount] by
    one, and the header of the summary shows the raised count, while the
    ride lines, the total earnings and the free store are what they were;
    so the count is greater than the number of rides in the total. *)
Theorem null_ride_counted_not_summed (d : Driver.t) (h : gmap loc control_block)
    (rides : list Ride) :
  rides_of h (Driver.assignedRides d) = Some rides ->
  let d' := fst (Driver.addRide None d h) in
  let h' := snd (Driver.addRide None d h) in
  h' = h /\
  Driver.getAssignedCount d' = S (Driver.getAssignedCount d) /\
  Driver.getDriverInfo d' h' =
    Some ([Str "Driver ID: "; Int (Driver.driverID d);
           Str " | Name: "; Str (Driver.name d);
           Str " | Rating: "; Fixed2 (Driver.rating d); Endl;
           Str "Assigned rides ("; Size (S (Driver.getAssignedCount d)); Str "):"; Endl]
          ++ concat (rideDetails <$> rides) ++
          [Str "Total earnings from assigned rides: $";
           Fixed2 (sum_from_zero (fare <$> rides)); Endl]) /\
  Driver.totalEarnings d' h' = Driver.totalEarnings d h /\
  Driver.totalEarnings d' h' = Some (sum_from_zero (fare <$> rides)) /\
  length rides < Driver.getAssignedCount d'.
Proof.
  intros H d' h'. subst d' h'. simpl.
  assert (H' : rides_of h (Driver.assignedRides d ++ [None]) = Some rides)
    by (rewrite rides_of_snoc_null; exact H).
  split; [reflexivity|].
  split; [unfold Driver.getAssignedCount; simpl; rewrite length_app; simpl; lia|].
  split; [|split; [|split]].
  - rewrite getDriverInfo_spec. simpl. rewrite H'.
    unfold Driver.header, Driver.getAssignedCount. simpl.
    rewrite length_app. simpl. rewrite Nat.add_1_r. reflexivity.
  - rewrite !totalEarnings_spec. simpl. rewrite H', H. reflexivity.
  - rewrite totalEarnings_spec. simpl. rewrite H'. reflexivity.
  - unfold Driver.getAssignedCount. simpl. rewrite length_app. simpl.
    apply rides_of_length in H. lia.
Qed.

Lemma null_ride_counted_not_summed_witness :
  Driver.getAssignedCount (fst (Driver.addRide None (fst Demo.driver1) Demo.h)) = 3 /\
  Driver.totalEarnings (fst (Driver.addRide None (fst Demo.driver1) Demo.h))
    (snd (Driver.addRide None (fst Demo.driver1) Demo.h)) =
  Some (sum_from_zero [28.599999999999998; 7.75]%float).
Proof.
  destruct (null_ride_counted_not_summed (fst Demo.driver1) Demo.h
              [mkRide 1 "Downtown" "Airport" 18.4 IsStandardRide;
               mkRide 3 "Home" "Office" 4.5 IsStandardRide]) as (_ & H1 & _ & _ & H2 & _).
  - vm_compute. reflexivity.
  - split; [rewrite H1; reflexivity | rewrite H2; vm_compute; reflexivity].
Defined.

(** * Further properties *)

(** ** Fares at the edges of the distance range *)

Section EdgeFacts.
Local Open Scope float_scope.

(** Rounding keeps the sign it is given. *)
Lemma binary_round_aux_sign (prec emax : Z) (s : bool) (m e : Z) (l : location) :
  (0 <= m)%Z ->
  match binary_round_aux prec emax s m e l with
  | S754_zero s' | S754_infinity s' | S754_finite s' _ _ => s' = s
  | S754_nan => False
  end.
Proof.
  intros H. unfold binary_round_aux.
  pose proof (shr_fexp_nonneg prec emax m e l H) as H1.
  destruct (shr_fexp prec emax m e l) as [mrs1 e1]; simpl in H1.
  pose proof (shr_fexp_nonneg prec emax
                (round_nearest_even (shr_m mrs1) (loc_of_shr_record mrs1)) e1 loc_Exact
                (round_nearest_even_nonneg _ _ H1)) as H2.
  destruct (shr_fexp prec emax _ e1 loc_Exact) as [mrs2 e2]; simpl in H2.
  destruct (shr_m mrs2); try lia; try reflexivity.
  destruct (e2 <=? emax - prec)%Z; reflexivity.
Qed.

Lemma leb_zero_nonpositive (d : double) :
  (d <=? 0) = true -> nonpositive (Prim2SF d) = true.
Proof.
  rewrite leb_spec. change (Prim2SF 0) with (S754_zero false). unfold SFleb.
  destruct (Prim2SF d) as [s|[|]| |[|] m e]; simpl; congruence.
Qed.

Lemma mul_pos_nonpositive (c d : double) (m : positive) (e : Z) :
  Prim2SF c = S754_finite false m e ->
  nonpositive (Prim2SF d) = true ->
  nonpositive (Prim2SF (c * d)) = true.
Proof.
  intros Hc Hd. rewrite mul_spec, Hc.
  destruct (Prim2SF d) as [s|[|]| |[|] md ed]; simpl in Hd |- *;
    try discriminate; try reflexivity.
  pose proof (binary_round_aux_sign prec emax true (Z.pos (m * md)) (e + ed) loc_Exact
                (Pos2Z.is_nonneg _)) as H.
  destruct (binary_round_aux prec emax true (Z.pos (m * md)) (e + ed) loc_Exact)
    as [s|s| |s m' e']; simpl; try reflexivity; try contradiction;
    rewrite H; reflexivity.
Qed.

Lemma ltb_pos_nonpositive (a x : double) (m : positive) (e : Z) :
  Prim2SF a = S754_finite false m e ->
  nonpositive (Prim2SF x) = true -> (a <? x) = false.
Proof.
  intros Ha Hx. rewrite ltb_spec, Ha. unfold SFltb.
  destruct (Prim2SF x) as [s|[|]| |[|] mx ex]; simpl in Hx |- *;
    try discriminate; reflexivity.
Qed.

Lemma SFmul_nan_l (prec emax : Z) (y : spec_float) : SFmul prec emax S754_nan y = S754_nan.
Proof. reflexivity. Qed.

Lemma SFmul_nan_r (prec emax : Z) (x : spec_float) : SFmul prec emax x S754_nan = S754_nan.
Proof. destruct x; reflexivity. Qed.

Lemma mul_nan_l (x y : double) : Prim2SF x = S754_nan -> Prim2SF (x * y) = S754_nan.
Proof. intros H. rewrite mul_spec, H. apply SFmul_nan_l. Qed.

Lemma mul_nan_r (x y : double) : Prim2SF y = S754_nan -> Prim2SF (x * y) = S754_nan.
Proof. intros H. rewrite mul_spec, H. apply SFmul_nan_r. Qed.

Lemma add_nan_l (x y : double) : Prim2SF x = S754_nan -> Prim2SF (x + y) = S754_nan.
Proof. intros H. rewrite add_spec, H. reflexivity. Qed.
End EdgeFacts.

(** X1: a base [Ride] whose distance is zero, negative, minus infinity or
    NaN costs exactly the minimum 2.0. *)
Theorem Ride_fare_nonpositive_distance (pickup dropoff : string) (d : double) (s : State) :
  (d <=? 0)%float = true \/ is_nan d = true ->
  fare (fst (Ride_ctor pickup dropoff d s)) = 2.0%float.
Proof.
  intros H. rewrite fare_Ride_ctor. destruct H as [H|H].
  - unfold std_max.
    rewrite (ltb_pos_nonpositive 2.0 (1.0 * d) 4503599627370496 (-51)); [reflexivity|reflexivity|].
    apply (mul_pos_nonpositive 1.0 d 4503599627370496 (-52)); [reflexivity|].
    apply leb_zero_nonpositive, H.
  - apply std_max_nan_right, mul_nan_r, is_nan_true_Prim2SF, H.
Qed.

Lemma Ride_fare_nonpositive_distance_witness :
  ((-3.5 <=? 0)%float = true \/ is_nan (-3.5) = true) /\
  fare (fst (Ride_ctor "Park" "Museum" (-3.5) initial_state)) = 2.0%float.
Proof.
  split; [left; reflexivity|].
  apply (Ride_fare_nonpositive_distance "Park" "Museum" (-3.5)%float initial_state).
  left. reflexivity.
Defined.

(** X2: a NaN distance costs exactly the minimum of the class (3.0 for
    [StandardRide], 10.0 for [PremiumRide], whatever the multiplier), and so
    does a [PremiumRide] with a NaN multiplier, whatever the distance: the
    NaN never reaches the fare. *)
Theorem fare_of_nan_is_floor (pickup dropoff : string) (d m : double) (s : State) :
  (is_nan d = true ->
   fare (fst (StandardRide_ctor pickup dropoff d s)) = 3.0%float) /\
  (is_nan d = true \/ is_nan m = true ->
   fare (fst (PremiumRide_ctor pickup dropoff d (Some m) s)) = 10.0%float).
Proof.
  split.
  - intros H. rewrite fare_StandardRide_ctor.
    apply std_max_nan_right, add_nan_l, mul_nan_r, is_nan_true_Prim2SF, H.
  - intros H. rewrite fare_PremiumRide_ctor. simpl.
    apply std_max_nan_right, add_nan_l. destruct H as [H|H].
    + apply mul_nan_l, mul_nan_r, is_nan_true_Prim2SF, H.
    + apply mul_nan_r, is_nan_true_Prim2SF, H.
Qed.

Lemma fare_of_nan_is_floor_witness :
  is_nan nan = true /\
  fare (fst (StandardRide_ctor "A" "B" nan initial_state)) = 3.0%float /\
  fare (fst (PremiumRide_ctor "A" "B" 12.0 (Some nan) initial_state)) = 10.0%float.
Proof.
  split; [reflexivity|].
  destruct (fare_of_nan_is_floor "A" "B" nan nan initial_state) as [H1 _].
  destruct (fare_of_nan_is_floor "A" "B" 12.0%float nan initial_state) as [_ H2].
  split; [apply H1; reflexivity | apply H2; right; reflexivity].
Defined.

(** ** Ownership of the rides *)

Section OwnershipFacts.
Implicit Types (h : gmap loc control_block) (p : shared_ptr) (l : loc)
  (owners v : list shared_ptr).

Lemma occurrences_nil l : occurrences l [] = 0.
Proof. reflexivity. Qed.

Lemma occurrences_app l v owners :
  occurrences l (v ++ owners) = occurrences l v + occurrences l owners.
Proof. unfold occurrences. rewrite filter_app, length_app. reflexivity. Qed.

Lemma occurrences_perm l owners owners' :
  owners ≡ₚ owners' -> occurrences l owners = occurrences l owners'.
Proof. intros H. unfold occurrences. rewrite H. reflexivity. Qed.

Lemma occurrences_elem_of l owners : Some l ∈ owners -> 0 < occurrences l owners.
Proof.
  intros H. unfold occurrences.
  assert (H' : Some l ∈ filter (fun p => p = Some l) owners)
    by (apply list_elem_of_filter; split; [reflexivity|exact H]).
  destruct (filter (fun p => p = Some l) owners); [inversion H'|simpl; lia].
Qed.

Lemma owner_counts_lookup owners l :
  owner_counts owners !! l =
  match occurrences l owners with 0 => None | S n => Some (S n) end.
Proof.
  induction owners as [|[l0|] owners IH].
  - reflexivity.
  - cbn [owner_counts foldr add_owner]. fold (owner_counts owners).
    destruct (decide (l0 = l)) as [->|Hne].
    + rewrite lookup_insert_eq, occurrences_cons_eq, IH.
      destruct (occurrences l owners); reflexivity.
    + rewrite lookup_insert_ne by exact Hne.
      rewrite occurrences_cons_ne by congruence. exact IH.
  - cbn [owner_counts foldr add_owner]. fold (owner_counts owners).
    rewrite occurrences_cons_ne by discriminate. exact IH.
Qed.

Lemma counts_match_lookup h owners l :
  counts_match h owners ->
  use_count <$> h !! l =
  match occurrences l owners with 0 => None | S n => Some (S n) end.
Proof.
  intros H. rewrite <- owner_counts_lookup, <- H, lookup_fmap. reflexivity.
Qed.

Lemma counts_match_intro h owners :
  (forall l, use_count <$> h !! l =
             match occurrences l owners with 0 => None | S n => Some (S n) end) ->
  counts_match h owners.
Proof.
  intros H. apply map_eq. intros l.
  rewrite lookup_fmap, owner_counts_lookup. apply H.
Qed.

Lemma counts_match_perm h owners owners' :
  owners ≡ₚ owners' -> counts_match h owners -> counts_match h owners'.
Proof.
  intros Hp H. apply counts_match_intro. intros l.
  rewrite <- (occurrences_perm l _ _ Hp). apply counts_match_lookup, H.
Qed.

Lemma counts_match_positive h owners : counts_match h owners -> counts_positive h.
Proof.
  intros H l b Hl. pose proof (counts_match_lookup h owners l H) as E.
  rewrite Hl in E. simpl in E.
  destruct (occurrences l owners); [discriminate|]. injection E as ->. lia.
Qed.

Lemma counts_match_live h owners l :
  counts_match h owners -> Some l ∈ owners -> is_Some (deref h l).
Proof.
  intros H Hl. pose proof (counts_match_lookup h owners l H) as E.
  pose proof (occurrences_elem_of l owners Hl) as Hpos.
  unfold deref. destruct (h !! l) as [b|]; [eexists; reflexivity|].
  destruct (occurrences l owners); [lia|discriminate].
Qed.

Lemma counts_match_copy h owners p :
  counts_match h owners -> p = None \/ p ∈ owners ->
  counts_match (sp_copy p h) (p :: owners).
Proof.
  intros H Hp. apply counts_match_intro. intros l.
  pose proof (counts_match_lookup h owners l H) as E.
  destruct p as [l0|]; simpl.
  - destruct Hp as [Hp|Hp]; [discriminate|].
    rewrite lookup_alter. destruct (decide (l0 = l)) as [->|Hne].
    + rewrite occurrences_cons_eq.
      pose proof (occurrences_elem_of l owners Hp) as Hpos.
      destruct (h !! l) as [b|]; simpl in E |- *;
        destruct (occurrences l owners); try lia; try discriminate.
      injection E as ->. reflexivity.
    + rewrite occurrences_cons_ne by congruence. exact E.
  - rewrite occurrences_cons_ne by discriminate. exact E.
Qed.

Lemma counts_match_alloc h owners (r : Ride) :
  counts_match h owners ->
  counts_match (<[fresh (dom h) := mkBlock r 1]> h) (Some (fresh (dom h)) :: owners).
Proof.
  intros H. apply counts_match_intro. intros l.
  pose proof (counts_match_lookup h owners l H) as E.
  destruct (decide (fresh (dom h) = l)) as [Hl|Hne].
  - rewrite <- Hl, lookup_insert_eq, occurrences_cons_eq. simpl.
    pose proof (counts_match_lookup h owners (fresh (dom h)) H) as E'.
    assert (Hfresh : h !! fresh (dom h) = None)
      by (apply not_elem_of_dom, is_fresh).
    rewrite Hfresh in E'. simpl in E'.
    destruct (occurrences (fresh (dom h)) owners); [reflexivity|discriminate].
  - rewrite lookup_insert_ne by exact Hne.
    rewrite occurrences_cons_ne by congruence. exact E.
Qed.

Lemma counts_match_release_all h v owners :
  counts_match h (v ++ owners) -> counts_match (foldl sp_release h v) owners.
Proof.
  intros H. apply counts_match_intro. intros l.
  pose proof (counts_match_lookup h (v ++ owners) l H) as E.
  rewrite occurrences_app in E.
  destruct (h !! l) as [b|] eqn:Hl; simpl in E.
  - destruct (occurrences l v + occurrences l owners) as [|n] eqn:En; [discriminate|].
    injection E as Ec.
    destruct (occurrences l owners) as [|k] eqn:Ek.
    + rewrite (release_all_deletes v h l b Hl) by lia. reflexivity.
    + rewrite (release_all_survives v h l b Hl) by lia. simpl. f_equal. lia.
  - rewrite (release_all_absent v h l Hl). simpl.
    destruct (occurrences l v + occurrences l owners) eqn:En; [|discriminate].
    assert (occurrences l owners = 0) as -> by lia. reflexivity.
Qed.

Lemma counts_match_empty : counts_match ∅ [].
Proof. reflexivity. Qed.

(** Reading a vector of owned pointers never meets a deleted object. *)
Lemma rides_of_owned h owners v :
  counts_match h owners -> v ⊆ owners -> is_Some (rides_of h v).
Proof.
  intros H Hsub. induction v as [|[l|] v IH].
  - eexists. reflexivity.
  - rewrite rides_of_cons.
    destruct (counts_match_live h owners l H) as [r ->]; [apply Hsub; left|].
    destruct IH as [rs ->]; [intros p Hp; apply Hsub; right; exact Hp|].
    eexists. reflexivity.
  - rewrite rides_of_null. apply IH. intros p Hp. apply Hsub. right. exact Hp.
Qed.

Lemma copy_all_lookup (ps : list shared_ptr) h l :
  foldl (fun h p => sp_copy p h) h ps !! l =
  (fun b => mkBlock (object b) (use_count b + occurrences l ps)) <$> h !! l.
Proof.
  revert h. induction ps as [|p ps IH]; intros h.
  - simpl. destruct (h !! l) as [[r n]|]; simpl; [|reflexivity].
    rewrite occurrences_nil, Nat.add_0_r. reflexivity.
  - cbn [foldl]. rewrite IH. destruct (decide (p = Some l)) as [->|Hne].
    + rewrite occurrences_cons_eq. simpl. rewrite lookup_alter_eq.
      destruct (h !! l) as [[r n]|]; simpl; [|reflexivity].
      do 2 f_equal. lia.
    + rewrite occurrences_cons_ne by exact Hne.
      destruct p as [l0|]; simpl; [|reflexivity].
      rewrite lookup_alter_ne by congruence. reflexivity.
Qed.

Lemma sp_copy_lookup h p l (b' : control_block) :
  sp_copy p h !! l = Some b' ->
  exists b, h !! l = Some b /\ object b' = object b.
Proof.
  destruct p as [l0|]; simpl; [|eauto].
  rewrite lookup_alter_Some. intros [[_ (b & Hb & ->)]|[_ H]]; eauto.
Qed.
End OwnershipFacts.

Lemma make_shared_alloc_lookup (e : new_expr) (s : State) :
  exists l : loc,
    heap s !! l = None /\
    heap (snd (make_shared e s)) !! l = Some (mkBlock (fst (construct e s)) 1) /\
    nextID (snd (make_shared e s)) = int_wrap (nextID s + 1) /\
    (forall l' : loc, l' <> l ->
        heap (snd (make_shared e s)) !! l' = heap s !! l').
Proof.
  unfold make_shared. destruct (construct_effect e s) as [_ Hst].
  destruct (construct e s) as [r s1]. simpl in Hst. subst s1. simpl.
  exists (fresh (dom (heap s))).
  split; [apply not_elem_of_dom, is_fresh|].
  split; [apply lookup_insert_eq|]. split; [reflexivity|].
  intros l' Hne. apply lookup_insert_ne. congruence.
Qed.

(** X4: [make_shared] keeps the use counts equal to the numbers of owners,
    the returned pointer being the new owner. *)
Theorem make_shared_keeps_counts (e : new_expr) (s : State) (owners : list shared_ptr) :
  counts_match (heap s) owners ->
  counts_match (heap (snd (make_shared e s))) (fst (make_shared e s) :: owners).
Proof.
  intros H. unfold make_shared.
  destruct (construct_effect e s) as [_ Hst].
  destruct (construct e s) as [r s1]. simpl in Hst. subst s1. simpl.
  apply counts_match_alloc, H.
Qed.

Lemma make_shared_keeps_counts_witness :
  counts_match (heap initial_state) [] /\
  counts_match
    (heap (snd (make_shared (NewStandardRide "Downtown" "Airport" 18.4) initial_state)))
    [Some 1%positive].
Proof.
  split; [reflexivity|].
  apply (make_shared_keeps_counts (NewStandardRide "Downtown" "Airport" 18.4) initial_state []).
  reflexivity.
Defined.

(** X5: [addRide] and [requestRide], given a null pointer or a copy of a
    pointer that is an owner, keep the use counts equal to the numbers of
    owners, the stored copy being one more owner. *)
Theorem push_back_keeps_counts (ride : shared_ptr) (d : Driver.t) (r : Rider.t)
    (h : gmap loc control_block) (owners : list shared_ptr) :
  counts_match h owners ->
  ride = None \/ ride ∈ owners ->
  counts_match (snd (Driver.addRide ride d h)) (ride :: owners) /\
  counts_match (snd (Rider.requestRide ride r h)) (ride :: owners).
Proof.
  intros H Hp. split; apply counts_match_copy; assumption.
Qed.

Lemma push_back_keeps_counts_witness :
  counts_match Demo.h DemoOwners.owners /\
  Demo.r1 ∈ DemoOwners.owners /\
  counts_match (snd (Driver.addRide Demo.r1 (fst Demo.driver2) Demo.h))
    (Demo.r1 :: DemoOwners.owners).
Proof.
  assert (H : counts_match Demo.h DemoOwners.owners) by (vm_compute; reflexivity).
  assert (H1 : Demo.r1 ∈ DemoOwners.owners) by (vm_compute; left).
  split; [exact H|]. split; [exact H1|].
  apply (push_back_keeps_counts Demo.r1 (fst Demo.driver2) (fst Demo.rider1)
           Demo.h DemoOwners.owners H (or_intror H1)).
Defined.

(** X6: [clearAssignedRides] keeps the use counts equal to the numbers of
    owners, the pointers of the cleared vector no longer being owners; a
    ride that loses its last owner leaves the free store. *)
Theorem clearAssignedRides_keeps_counts (d : Driver.t) (h : gmap loc control_block)
    (owners rest : list shared_ptr) :
  counts_match h owners ->
  owners ≡ₚ Driver.assignedRides d ++ rest ->
  counts_match (snd (Driver.clearAssignedRides d h)) rest.
Proof.
  intros H Hp. simpl. apply counts_match_release_all.
  apply (counts_match_perm h owners); assumption.
Qed.

Lemma clearAssignedRides_keeps_counts_witness :
  counts_match (snd WithNull.driver)
    (Driver.assignedRides (fst WithNull.driver) ++ DemoOwners.owners) /\
  counts_match
    (snd (Driver.clearAssignedRides (fst WithNull.driver) (snd WithNull.driver)))
    DemoOwners.owners.
Proof.
  assert (H : counts_match (snd WithNull.driver)
                (Driver.assignedRides (fst WithNull.driver) ++ DemoOwners.owners))
    by (vm_compute; reflexivity).
  split; [exact H|].
  apply (clearAssignedRides_keeps_counts (fst WithNull.driver) (snd WithNull.driver)
           (Driver.assignedRides (fst WithNull.driver) ++ DemoOwners.owners)
           DemoOwners.owners H).
  reflexivity.
Defined.

(** X7: when the use counts are the numbers of owners, a driver or rider
    whose vector holds only null pointers and owners can always be
    reported: [getDriverInfo] and [viewRides] never dereference a pointer
    whose ride is gone. *)
Theorem reports_are_defined (d : Driver.t) (r : Rider.t) (h : gmap loc control_block)
    (owners : list shared_ptr) :
  counts_match h owners ->
  (Driver.assignedRides d ⊆ owners ->
   is_Some (Driver.getDriverInfo d h) /\ is_Some (Driver.totalEarnings d h)) /\
  (Rider.requestedRides r ⊆ owners -> is_Some (Rider.viewRides r h)).
Proof.
  intros H. split.
  - intros Hsub. destruct (rides_of_owned h owners _ H Hsub) as [rides Hr].
    rewrite getDriverInfo_spec, totalEarnings_spec, Hr.
    split; eexists; reflexivity.
  - intros Hsub. destruct (rides_of_owned h owners _ H Hsub) as [rides Hr].
    rewrite viewRides_spec, Hr. eexists. reflexivity.
Qed.

Lemma reports_are_defined_witness :
  counts_match Demo.h DemoOwners.owners /\
  Driver.assignedRides (fst Demo.driver1) ⊆ DemoOwners.owners /\
  is_Some (Driver.getDriverInfo (fst Demo.driver1) Demo.h).
Proof.
  assert (H : counts_match Demo.h DemoOwners.owners) by (vm_compute; reflexivity).
  assert (Hsub : Driver.assignedRides (fst Demo.driver1) ⊆ DemoOwners.owners).
  { intros p Hp. vm_compute in Hp.
    apply elem_of_cons in Hp as [->|Hp]; [vm_compute; left|].
    apply elem_of_cons in Hp as [->|Hp]; [vm_compute; right; right; left|].
    inversion Hp. }
  split; [exact H|]. split; [exact Hsub|].
  destruct (reports_are_defined (fst Demo.driver1) (fst Demo.rider1) Demo.h
              DemoOwners.owners H) as [Hd _].
  apply Hd, Hsub.
Defined.

(** X8: with positive use counts, clearing a driver after a run of
    [addRide] calls leaves the free store as clearing it before the calls
    would; for a driver whose vector was empty, [addRide] calls followed by
    [clearAssignedRides] give back the free store and the driver as they
    were. *)
Theorem addRides_then_clear (rides : list shared_ptr) (d : Driver.t)
    (h : gmap loc control_block) :
  counts_positive h ->
  let after := Driver.addRides rides d h in
  Driver.clearAssignedRides (fst after) (snd after) = Driver.clearAssignedRides d h /\
  (Driver.assignedRides d = [] ->
   Driver.clearAssignedRides (fst after) (snd after) = (d, h)).
Proof.
  intros Hpos after.
  assert (E : Driver.clearAssignedRides (fst after) (snd after) =
              Driver.clearAssignedRides d h).
  { subst after. rewrite addRides_spec.
    unfold Driver.clearAssignedRides, clear. cbn [fst snd Driver.driverID Driver.name
      Driver.rating Driver.assignedRides]. f_equal.
    apply map_eq. intros l.
    pose proof (copy_all_lookup rides h l) as Hc.
    destruct (h !! l) as [b|] eqn:Hl; simpl in Hc.
    - pose proof (Hpos l b Hl) as Hb.
      destruct (decide (occurrences l (Driver.assignedRides d) < use_count b)) as [Hlt|Hge].
      + rewrite (release_all_survives _ _ _ _ Hc)
          by (simpl; rewrite occurrences_app; lia).
        rewrite (release_all_survives _ _ _ _ Hl Hlt). simpl.
        rewrite occurrences_app. do 2 f_equal. lia.
      + rewrite (release_all_deletes _ _ _ _ Hc)
          by (simpl; rewrite occurrences_app; lia).
        rewrite (release_all_deletes _ _ _ _ Hl) by lia. reflexivity.
    - rewrite (release_all_absent _ _ _ Hc), (release_all_absent _ _ _ Hl).
      reflexivity. }
  split; [exact E|].
  intros Hnil. rewrite E. unfold Driver.clearAssignedRides, clear. rewrite Hnil.
  destruct d as [id n r v]. simpl in Hnil. subst v. reflexivity.
Qed.

Lemma addRides_then_clear_witness :
  counts_positive Demo.h /\
  Driver.clearAssignedRides
    (fst (Driver.addRides [Demo.r1; Demo.r1; None; Demo.r4] (Driver.ctor 103 "Lee" None) Demo.h))
    (snd (Driver.addRides [Demo.r1; Demo.r1; None; Demo.r4] (Driver.ctor 103 "Lee" None) Demo.h)) =
  (Driver.ctor 103 "Lee" None, Demo.h).
Proof.
  assert (H : counts_positive Demo.h).
  { apply (counts_match_positive Demo.h DemoOwners.owners). vm_compute. reflexivity. }
  split; [exact H|].
  apply (addRides_then_clear [Demo.r1; Demo.r1; None; Demo.r4]
           (Driver.ctor 103 "Lee" None) Demo.h H).
  reflexivity.
Defined.

(** ** Reports *)

Section ReportFacts.
Implicit Types (h : gmap loc control_block) (out : list item).

Lemma endl_count_app out out' :
  endl_count (out ++ out') = endl_count out + endl_count out'.
Proof.
  induction out as [|i out IH]; [reflexivity|].
  destruct i; simpl; rewrite IH; reflexivity.
Qed.

Lemma endl_count_rideDetails (r : Ride) : endl_count (rideDetails r) = 1.
Proof. unfold rideDetails. destruct (dynamic_type r); reflexivity. Qed.

Lemma endl_count_details (rides : list Ride) :
  endl_count (concat (rideDetails <$> rides)) = length rides.
Proof.
  induction rides as [|r rides IH]; [reflexivity|].
  cbn [fmap list_fmap concat]. change (list_fmap Ride (list item) rideDetails rides)
    with (rideDetails <$> rides).
  rewrite endl_count_app, endl_count_rideDetails, IH. reflexivity.
Qed.
End ReportFacts.

(** X9: a driver summary has three lines more than there are non-null
    pointers in [assignedRides] (two header lines, one line per ride, the
    total line), and a rider history one more than there are non-null
    pointers in [requestedRides]; null pointers add no line. *)
Theorem report_line_counts (d : Driver.t) (r : Rider.t) (h : gmap loc control_block) :
  (forall (rides : list Ride) (out : list item),
      rides_of h (Driver.assignedRides d) = Some rides ->
      Driver.getDriverInfo d h = Some out ->
      endl_count out = 3 + length rides /\
      length rides = length (omap id (Driver.assignedRides d))) /\
  (forall (rides : list Ride) (out : list item),
      rides_of h (Rider.requestedRides r) = Some rides ->
      Rider.viewRides r h = Some out ->
      endl_count out = 1 + length rides /\
      length rides = length (omap id (Rider.requestedRides r))).
Proof.
  split; intros rides out Hr Hout.
  - rewrite getDriverInfo_spec, Hr in Hout. injection Hout as <-.
    cbn [endl_count]. rewrite endl_count_app, endl_count_details.
    split; [simpl; lia|].
    symmetry. apply (length_mapM _ _ _ Hr).
  - rewrite viewRides_spec, Hr in Hout. injection Hout as <-.
    cbn [endl_count]. rewrite endl_count_details.
    split; [reflexivity|].
    symmetry. apply (length_mapM _ _ _ Hr).
Qed.

Lemma report_line_counts_witness :
  rides_of WithNull.h (Driver.assignedRides (fst WithNull.driver)) =
    Some [mkRide 1 "Downtown" "Airport" 18.4 IsStandardRide;
          mkRide 3 "Home" "Office" 4.5 IsStandardRide] /\
  exists out : list item,
    Driver.getDriverInfo (fst WithNull.driver) WithNull.h = Some out /\
    endl_count out = 5.
Proof.
  split; [vm_compute; reflexivity|].
  destruct (Driver.getDriverInfo (fst WithNull.driver) WithNull.h) as [out|] eqn:E;
    [|vm_compute in E; discriminate].
  exists out. split; [reflexivity|].
  destruct (report_line_counts (fst WithNull.driver) (fst Demo.rider1) WithNull.h) as [H _].
  destruct (H [mkRide 1 "Downtown" "Airport" 18.4 IsStandardRide;
               mkRide 3 "Home" "Office" 4.5 IsStandardRide] out) as [H1 _].
  - vm_compute. reflexivity.
  - exact E.
  - exact H1.
Defined.

(** X10: after [requestRide] with a pointer to a live ride, [viewRides]
    prints the header with the count raised by one, the lines it printed
    before, and the details of the new ride as the last line; after
    [requestRide] with a null pointer it prints the raised count and the
    lines it printed before. *)
Theorem viewRides_after_requestRide (r : Rider.t) (h : gmap loc control_block)
    (rides : list Ride) :
  rides_of h (Rider.requestedRides r) = Some rides ->
  let header (n : nat) :=
    [Str "Rider ID: "; Int (Rider.riderID r);
     Str " | Name: "; Str (Rider.name r);
     Str " | Ride history ("; Size n; Str "):"; Endl] in
  let n := length (Rider.requestedRides r) in
  Rider.viewRides r h = Some (header n ++ concat (rideDetails <$> rides)) /\
  (forall (l : loc) (ride : Ride),
      deref h l = Some ride ->
      Rider.viewRides (fst (Rider.requestRide (Some l) r h))
                      (snd (Rider.requestRide (Some l) r h)) =
      Some (header (S n) ++ concat (rideDetails <$> rides) ++ rideDetails ride)) /\
  Rider.viewRides (fst (Rider.requestRide None r h)) (snd (Rider.requestRide None r h)) =
    Some (header (S n) ++ concat (rideDetails <$> rides)).
Proof.
  intros H header n. subst header n.
  split; [rewrite viewRides_spec, H; reflexivity|]. split.
  - intros l ride Hl. rewrite viewRides_spec.
    cbn [Rider.requestRide push_back fst snd Rider.requestedRides Rider.riderID Rider.name].
    rewrite (rides_of_ext h) by (intros; apply deref_sp_copy).
    rewrite (rides_of_snoc h l _ rides ride H Hl).
    cbn [fmap option_fmap option_map].
    rewrite length_app, Nat.add_1_r, fmap_app, concat_app.
    cbn [fmap list_fmap concat]. rewrite app_nil_r. reflexivity.
  - rewrite viewRides_spec.
    cbn [Rider.requestRide push_back fst snd Rider.requestedRides Rider.riderID Rider.name
         sp_copy].
    rewrite rides_of_snoc_null, H. cbn [fmap option_fmap option_map].
    rewrite length_app, Nat.add_1_r. reflexivity.
Qed.

Lemma viewRides_after_requestRide_witness :
  rides_of Demo.h (Rider.requestedRides (fst Demo.rider2)) =
    Some [mkRide 3 "Home" "Office" 4.5 IsStandardRide;
          mkRide 4 "Hotel" "Convention Center" 12.0 (IsPremiumRide 2.0)] /\
  Rider.viewRides (fst (Rider.requestRide None (fst Demo.rider2) Demo.h))
                  (snd (Rider.requestRide None (fst Demo.rider2) Demo.h)) =
  Some ([Str "Rider ID: "; Int 202; Str " | Name: "; Str "Sam Lee";
         Str " | Ride history ("; Size 3; Str "):"; Endl] ++
        concat (rideDetails <$>
                  [mkRide 3 "Home" "Office" 4.5 IsStandardRide;
                   mkRide 4 "Hotel" "Convention Center" 12.0 (IsPremiumRide 2.0)])).
Proof.
  assert (H : rides_of Demo.h (Rider.requestedRides (fst Demo.rider2)) =
              Some [mkRide 3 "Home" "Office" 4.5 IsStandardRide;
                    mkRide 4 "Hotel" "Convention Center" 12.0 (IsPremiumRide 2.0)])
    by (vm_compute; reflexivity).
  split; [exact H|].
  destruct (viewRides_after_requestRide (fst Demo.rider2) Demo.h _ H) as (_ & _ & H3).
  exact H3.
Defined.

(** X11: [addRide] and [requestRide] change no ride and nobody else's
    report: every pointer reads the same ride afterwards, and every driver
    summary and rider history over the old vectors is printed as before. *)
Theorem push_back_frame (ride : shared_ptr) (d : Driver.t) (r : Rider.t)
    (h : gmap loc control_block) :
  let h1 := snd (Driver.addRide ride d h) in
  let h2 := snd (Rider.requestRide ride r h) in
  h1 = h2 /\
  (forall l : loc, deref h1 l = deref h l) /\
  (forall other : Driver.t,
      Driver.getDriverInfo other h1 = Driver.getDriverInfo other h /\
      Driver.totalEarnings other h1 = Driver.totalEarnings other h) /\
  (forall rider : Rider.t, Rider.viewRides rider h1 = Rider.viewRides rider h).
Proof.
  intros h1 h2. subst h1 h2. simpl.
  assert (Hr : forall v : list shared_ptr, rides_of (sp_copy ride h) v = rides_of h v)
    by (intros v; apply rides_of_ext; intros; apply deref_sp_copy).
  split; [reflexivity|]. split; [intros l; apply deref_sp_copy|]. split.
  - intros other. rewrite !getDriverInfo_spec, !totalEarnings_spec, Hr.
    split; reflexivity.
  - intros rider. rewrite !viewRides_spec, Hr. reflexivity.
Qed.

(** ** Identifiers of the rides in the free store *)

Section IdentifierFacts.
Local Open Scope Z_scope.

(** A free store that only keeps or drops objects of another keeps its
    identifiers distinct. *)
Lemma ids_identify_shrink (n : Z) (h h' : gmap loc control_block) :
  (forall (l : loc) (b' : control_block),
      h' !! l = Some b' -> exists b, h !! l = Some b /\ object b' = object b) ->
  ids_identify (mkState n h) -> ids_identify (mkState n h').
Proof.
  intros Hsub [Hrange Hinj]. split; simpl in *.
  - intros l b' Hl. destruct (Hsub l b' Hl) as (b & Hb & ->). apply (Hrange l b Hb).
  - intros l1 l2 b1' b2' H1 H2.
    destruct (Hsub l1 b1' H1) as (b1 & Hb1 & ->).
    destruct (Hsub l2 b2' H2) as (b2 & Hb2 & ->).
    apply (Hinj l1 l2 b1 b2 Hb1 Hb2).
Qed.
End IdentifierFacts.

(** X12: while the counter has not reached [INT_MAX], the identifier of a
    ride tells which object it is: when the rides in the free store have
    identifiers from 1 up to the counter, no two alike, this still holds
    after [make_shared], [addRide], [requestRide] and [clearAssignedRides];
    it holds at the start of the program. *)
Theorem ride_ids_identify_rides :
  ids_identify initial_state /\
  (forall (e : new_expr) (s : State),
      ids_identify s -> (1 <= nextID s < INT_MAX)%Z ->
      ids_identify (snd (make_shared e s))) /\
  (forall (n : Z) (h : gmap loc control_block) (ride : shared_ptr)
          (d : Driver.t) (r : Rider.t),
      ids_identify (mkState n h) ->
      ids_identify (mkState n (snd (Driver.addRide ride d h))) /\
      ids_identify (mkState n (snd (Rider.requestRide ride r h))) /\
      ids_identify (mkState n (snd (Driver.clearAssignedRides d h)))).
Proof.
  split; [|split].
  - split; simpl; intros *; rewrite lookup_empty; discriminate.
  - intros e s [Hrange Hinj] Hn.
    destruct (make_shared_alloc_lookup e s) as (l & Hfresh & Hnew & Hnext & Hothers).
    assert (Hw : int_wrap (nextID s + 1) = (nextID s + 1)%Z)
      by (apply int_wrap_id; unfold INT_MIN, INT_MAX in *; lia).
    assert (Hold : forall (l' : loc) (b : control_block),
               heap (snd (make_shared e s)) !! l' = Some b ->
               l' = l /\ rideID (object b) = nextID s \/
               l' <> l /\ heap s !! l' = Some b).
    { intros l' b Hb. destruct (decide (l' = l)) as [->|Hne].
      - left. split; [reflexivity|]. rewrite Hnew in Hb. injection Hb as <-.
        simpl. apply construct_effect.
      - right. split; [exact Hne|]. rewrite <- (Hothers l' Hne). exact Hb. }
    split.
    + intros l' b Hb. rewrite Hnext, Hw.
      destruct (Hold l' b Hb) as [[_ ->]|[_ Hb']]; [lia|].
      pose proof (Hrange l' b Hb'). lia.
    + intros l1 l2 b1 b2 H1 H2 Hid.
      destruct (Hold l1 b1 H1) as [[-> E1]|[Hne1 Hb1]];
        destruct (Hold l2 b2 H2) as [[-> E2]|[Hne2 Hb2]].
      * reflexivity.
      * pose proof (Hrange l2 b2 Hb2). lia.
      * pose proof (Hrange l1 b1 Hb1). lia.
      * apply (Hinj l1 l2 b1 b2 Hb1 Hb2 Hid).
  - intros n h ride d r H. split; [|split].
    + apply (ids_identify_shrink n h); [|exact H].
      intros l b'. apply sp_copy_lookup.
    + apply (ids_identify_shrink n h); [|exact H].
      intros l b'. apply sp_copy_lookup.
    + apply (ids_identify_shrink n h); [|exact H].
      intros l b'. apply release_all_lookup.
Qed.

Lemma ride_ids_identify_rides_witness :
  ids_identify initial_state /\
  (1 <= nextID initial_state < INT_MAX)%Z /\
  ids_identify (snd (make_shared (NewRide "Park" "Museum" 7.25) initial_state)).
Proof.
  destruct ride_ids_identify_rides as (H0 & Hmake & _).
  split; [exact H0|]. split; [vm_compute; split; [discriminate|reflexivity]|].
  apply (Hmake (NewRide "Park" "Museum" 7.25) initial_state H0).
  vm_compute. split; [discriminate|reflexivity].
Defined.

(** ** Fares of distances that are not positive *)

Section RoundingFacts.
Local Open Scope Z_scope.

Lemma fexp_binary64 (e : Z) : fexp prec emax e = Z.max (e - 53) (-1074).
Proof. reflexivity. Qed.

Lemma digits2_pos_size (p : positive) : digits2_pos p = Pos.size p.
Proof. induction p as [p IH|p IH|]; simpl; rewrite ?IH; reflexivity. Qed.

(** A number below [2 ^ k] has at most [k] binary digits. *)
Lemma Zdigits2_le (m k : Z) : 0 <= m < 2 ^ k -> 0 <= k -> Zdigits2 m <= k.
Proof.
  intros [Hm Hlt] Hk. destruct m as [|p|p]; simpl; [exact Hk| |lia].
  rewrite digits2_pos_size.
  pose proof (Pos.size_le p) as H.
  apply Pos2Z.pos_le_pos in H. rewrite Pos2Z.inj_pow in H.
  change (Z.pos p~0) with (2 * Z.pos p) in H.
  assert (H2 : 2 ^ Z.pos (Pos.size p) < 2 ^ (k + 1))
    by (rewrite Z.pow_add_r, Z.pow_1_r by lia; lia).
  apply Z.pow_lt_mono_r_iff in H2; lia.
Qed.

Lemma shr_1_half (mrs : shr_record) :
  0 <= shr_m mrs -> 2 * shr_m (shr_1 mrs) <= shr_m mrs.
Proof.
  destruct mrs as [m r s]; simpl.
  destruct m as [|[p|p|]|[p|p|]]; simpl; lia.
Qed.

(** Shifting right by [p] bits divides, rounding down. *)
Lemma iter_shr_1_bound (p : positive) (mrs : shr_record) :
  0 <= shr_m mrs ->
  shr_m (SpecFloat.iter_pos shr_1 p mrs) * 2 ^ Z.pos p <= shr_m mrs.
Proof.
  revert mrs. induction p as [p IH|p IH|]; intros mrs H; simpl SpecFloat.iter_pos.
  - pose proof (shr_1_half mrs H) as H1.
    pose proof (shr_1_nonneg mrs H) as N1.
    pose proof (IH _ N1) as H2.
    pose proof (iter_shr_1_nonneg p _ N1) as N2.
    pose proof (IH _ N2) as H3.
    pose proof (iter_shr_1_nonneg p _ N2) as N3.
    replace (Z.pos p~1) with (Z.pos p + Z.pos p + 1) by lia.
    rewrite !Z.pow_add_r, Z.pow_1_r by lia.
    assert (0 < 2 ^ Z.pos p) by (apply Z.pow_pos_nonneg; lia). nia.
  - pose proof (IH _ H) as H2.
    pose proof (iter_shr_1_nonneg p _ H) as N2.
    pose proof (IH _ N2) as H3.
    pose proof (iter_shr_1_nonneg p _ N2) as N3.
    replace (Z.pos p~0) with (Z.pos p + Z.pos p) by lia.
    rewrite !Z.pow_add_r by lia.
    assert (0 < 2 ^ Z.pos p) by (apply Z.pow_pos_nonneg; lia). nia.
  - pose proof (shr_1_half mrs H). change (2 ^ 1) with 2. lia.
Qed.

(** Bringing a mantissa to its format exponent keeps the value below
    [2 ^ D] and the exponent at most [E]. *)
Lemma shr_fexp_bound (m e D E : Z) (l : location) :
  0 <= m < 2 ^ (D - e) -> e <= E -> D - 53 <= E -> -1074 <= E -> E <= D ->
  snd (shr_fexp prec emax m e l) <= E /\
  0 <= shr_m (fst (shr_fexp prec emax m e l)) < 2 ^ (D - snd (shr_fexp prec emax m e l)).
Proof.
  intros [Hm Hlt] He HD Hemin HED.
  pose proof (shr_fexp_nonneg prec emax m e l Hm) as Hnn.
  split; [|split; [exact Hnn|]]; clear Hnn;
    unfold shr_fexp, shr; rewrite fexp_binary64;
    pose proof (Zdigits2_le m (D - e) (conj Hm Hlt) ltac:(lia)) as Hd;
    assert (H0 : shr_m (shr_record_of_loc m l) = m) by (destruct l as [|[]]; reflexivity);
    destruct (Z.max (Zdigits2 m + e - 53) (-1074) - e) as [|p|p] eqn:En; simpl;
    try lia; try (rewrite H0; exact Hlt).
  pose proof (iter_shr_1_bound p (shr_record_of_loc m l) ltac:(rewrite H0; exact Hm)) as Hb.
  rewrite H0 in Hb.
  assert (Hpow : 2 ^ (D - e) = 2 ^ (D - (e + Z.pos p)) * 2 ^ Z.pos p)
    by (rewrite <- Z.pow_add_r by lia; f_equal; lia).
  assert (0 < 2 ^ Z.pos p) by (apply Z.pow_pos_nonneg; lia).
  nia.
Qed.

Lemma round_nearest_even_le (m : Z) (l : location) : round_nearest_even m l <= m + 1.
Proof. destruct l as [|[]]; simpl; try lia. destruct (Z.even m); lia. Qed.

(** Rounding a value below [2 ^ K] gives zero or a number with exponent at
    most [K - 52]. *)
Lemma binary_round_aux_bound (s : bool) (m e K : Z) (l : location) :
  0 <= m < 2 ^ (K - e) -> e <= K - 52 -> -1074 <= K - 52 -> K - 52 <= 971 ->
  binary_round_aux prec emax s m e l = S754_zero s \/
  exists (m' : positive) (e' : Z),
    binary_round_aux prec emax s m e l = S754_finite s m' e' /\ e' <= K - 52.
Proof.
  intros Hm He Hmin Hmax. unfold binary_round_aux.
  destruct (shr_fexp_bound m e K (K - 52) l Hm He ltac:(lia) Hmin ltac:(lia)) as [He1 Hm1].
  destruct (shr_fexp prec emax m e l) as [mrs1 e1]; simpl in He1, Hm1.
  pose proof (round_nearest_even_nonneg _ (loc_of_shr_record mrs1) (proj1 Hm1)) as Hr0.
  pose proof (round_nearest_even_le (shr_m mrs1) (loc_of_shr_record mrs1)) as Hr1.
  assert (Hpow : 2 ^ (K + 1 - e1) = 2 * 2 ^ (K - e1))
    by (replace (K + 1 - e1) with (1 + (K - e1)) by lia;
        rewrite Z.pow_add_r by lia; reflexivity).
  assert (0 < 2 ^ (K - e1)) by (apply Z.pow_pos_nonneg; lia).
  destruct (shr_fexp_bound (round_nearest_even (shr_m mrs1) (loc_of_shr_record mrs1))
              e1 (K + 1) (K - 52) loc_Exact ltac:(lia) He1 ltac:(lia) Hmin ltac:(lia))
    as [He2 Hm2].
  destruct (shr_fexp prec emax _ e1 loc_Exact) as [mrs2 e2]; simpl in He2, Hm2.
  destruct (shr_m mrs2) as [|m'|m']; [left; reflexivity| |lia].
  right. exists m', e2.
  change (emax - prec) with 971.
  destruct (e2 <=? 971) eqn:Ele; [split; [reflexivity|exact He2]|].
  apply Z.leb_gt in Ele. lia.
Qed.

Lemma iter_xO_spec (m d : positive) : Z.pos (Pos.iter xO m d) = Z.pos m * 2 ^ Z.pos d.
Proof.
  induction d as [|d IH] using Pos.peano_ind.
  - simpl. lia.
  - rewrite Pos.iter_succ, Pos2Z.inj_succ, Z.pow_succ_r by lia.
    change (Z.pos (Pos.iter xO m d)~0) with (2 * Z.pos (Pos.iter xO m d)).
    rewrite IH. lia.
Qed.

(** Aligning a mantissa to a smaller exponent keeps the value. *)
Lemma shl_align_spec (m : positive) (e e' : Z) :
  snd (shl_align m e e') = Z.min e e' /\
  Z.pos (fst (shl_align m e e')) = Z.pos m * 2 ^ (e - Z.min e e').
Proof.
  unfold shl_align. destruct (e' - e) as [|d|d] eqn:Ed; simpl.
  - replace (Z.min e e') with e by lia. rewrite Z.sub_diag. simpl. lia.
  - replace (Z.min e e') with e by lia. rewrite Z.sub_diag. simpl. lia.
  - replace (Z.min e e') with e' by lia. split; [reflexivity|].
    rewrite iter_xO_spec. f_equal. f_equal. lia.
Qed.

Lemma binary_round_bound (s : bool) (m : positive) (e K : Z) :
  Z.pos m < 2 ^ (K - e) -> e <= K - 52 -> -1074 <= K - 52 -> K - 52 <= 971 ->
  binary_round prec emax s m e = S754_zero s \/
  exists (m' : positive) (e' : Z),
    binary_round prec emax s m e = S754_finite s m' e' /\ e' <= K - 52.
Proof.
  intros Hm He Hmin Hmax. unfold binary_round.
  destruct (shl_align_spec m e (fexp prec emax (Z.pos (digits2_pos m) + e))) as [Hs Hf].
  destruct (shl_align m e _) as [mz ez]; simpl in Hs, Hf.
  apply binary_round_aux_bound; try lia.
  rewrite Hf. split; [lia|].
  assert (Hpow : 2 ^ (K - ez) = 2 ^ (K - e) * 2 ^ (e - Z.min e (fexp prec emax (Z.pos (digits2_pos m) + e))))
    by (rewrite <- Z.pow_add_r by lia; f_equal; lia).
  rewrite Hpow.
  apply Z.mul_lt_mono_pos_r; [apply Z.pow_pos_nonneg; lia|exact Hm].
Qed.

Lemma binary_round_sign (s : bool) (m : positive) (e : Z) :
  match binary_round prec emax s m e with
  | S754_zero s' | S754_infinity s' | S754_finite s' _ _ => s' = s
  | S754_nan => False
  end.
Proof.
  unfold binary_round. destruct (shl_align m e _) as [mz ez].
  apply binary_round_aux_sign. lia.
Qed.

(** Adding a number that is not positive to [2 ^ (K - 1)] gives a number
    that is not positive, or one with exponent at most [K - 52]. *)
Lemma SFadd_nonpositive (x : spec_float) (mc : positive) (ec K : Z) :
  nonpositive x = true ->
  Z.pos mc <= 2 ^ (K - ec) -> ec <= K - 52 -> -1074 <= K - 52 -> K - 52 <= 971 ->
  at_most_exponent (K - 52) (SFadd prec emax x (S754_finite false mc ec)).
Proof.
  intros Hx Hmc Hec Hmin Hmax.
  destruct x as [s|[|]| |[|] mx ex]; simpl in Hx; try discriminate.
  - right. exists mc, ec. split; [reflexivity|exact Hec].
  - left. reflexivity.
  - cbn [SFadd cond_Zopp].
    destruct (shl_align_spec mx ex (Z.min ex ec)) as [_ Hfx].
    destruct (shl_align_spec mc ec (Z.min ex ec)) as [_ Hfc].
    set (ez := Z.min ex ec) in *.
    set (ax := Z.pos (fst (shl_align mx ex ez))) in *.
    set (ac := Z.pos (fst (shl_align mc ec ez))) in *.
    assert (Hax : 0 < ax) by (subst ax; lia).
    replace (Z.min ec ez) with ez in Hfc by (subst ez; lia).
    assert (Hac : ac <= 2 ^ (K - ez)).
    { rewrite Hfc.
      assert (Hpow : 2 ^ (K - ez) = 2 ^ (K - ec) * 2 ^ (ec - ez))
        by (rewrite <- Z.pow_add_r by (subst ez; lia); f_equal; lia).
      rewrite Hpow. apply Z.mul_le_mono_nonneg_r; [apply Z.pow_nonneg; lia|exact Hmc]. }
    unfold binary_normalize.
    destruct (- ax + ac) as [|p|p] eqn:Es.
    + left. reflexivity.
    + destruct (binary_round_bound false p ez K) as [->|(m' & e' & -> & He')];
        try (subst ez; lia).
      * left. reflexivity.
      * right. exists m', e'. split; [reflexivity|exact He'].
    + left. pose proof (binary_round_sign true p ez) as Hs.
      destruct (binary_round prec emax true p ez) as [s|s| |s m' e'];
        try contradiction; try rewrite Hs; reflexivity.
Qed.
End RoundingFacts.

Section NonpositiveFacts.
Local Open Scope float_scope.

Lemma leb_zero_nonnegative (m : double) :
  (0 <=? m) = true -> nonnegative (Prim2SF m) = true.
Proof.
  rewrite leb_spec. change (Prim2SF 0) with (S754_zero false). unfold SFleb.
  destruct (Prim2SF m) as [s|[|]| |[|] mm e]; simpl; congruence.
Qed.

(** A product of a number that is not positive and one that is not
    negative is not positive, or a NaN (zero times infinity). *)
Lemma mul_nonpositive_nonnegative (x m : double) :
  nonpositive (Prim2SF x) = true -> nonnegative (Prim2SF m) = true ->
  Prim2SF (x * m) = S754_nan \/ nonpositive (Prim2SF (x * m)) = true.
Proof.
  intros Hx Hm. rewrite mul_spec.
  destruct (Prim2SF x) as [sx|[|]| |[|] mx ex]; simpl in Hx; try discriminate;
    destruct (Prim2SF m) as [sm|[|]| |[|] mm em]; simpl in Hm; try discriminate;
    simpl; auto.
  right.
  pose proof (binary_round_aux_sign prec emax true (Z.pos (mx * mm)) (ex + em) loc_Exact
                (Pos2Z.is_nonneg _)) as H.
  destruct (binary_round_aux prec emax true (Z.pos (mx * mm)) (ex + em) loc_Exact)
    as [s|s| |s m' e']; simpl; try reflexivity; try contradiction;
    rewrite H; reflexivity.
Qed.

Lemma add_nonpositive (x c : double) (mc : positive) (ec K : Z) :
  nonpositive (Prim2SF x) = true ->
  Prim2SF c = S754_finite false mc ec ->
  (Z.pos mc <= 2 ^ (K - ec))%Z -> (ec <= K - 52)%Z ->
  (-1074 <= K - 52)%Z -> (K - 52 <= 971)%Z ->
  at_most_exponent (K - 52) (Prim2SF (x + c)).
Proof.
  intros Hx Hc H1 H2 H3 H4. rewrite add_spec, Hc.
  apply SFadd_nonpositive; assumption.
Qed.

(** A positive number is not below one with a smaller exponent, nor below
    one that is not positive. *)
Lemma ltb_at_most_exponent (a y : double) (ma : positive) (ea E : Z) :
  Prim2SF a = S754_finite false ma ea -> (E < ea)%Z ->
  at_most_exponent E (Prim2SF y) -> (a <? y) = false.
Proof.
  intros Ha HE [Hy|(m & e & Hy & He)].
  - apply (ltb_pos_nonpositive a y ma ea Ha Hy).
  - rewrite ltb_spec, Ha, Hy. unfold SFltb. simpl.
    assert (Hc : (ea ?= e)%Z = Gt) by (apply Z.compare_gt_iff; lia).
    rewrite Hc. reflexivity.
Qed.
End NonpositiveFacts.

(** X13: a [StandardRide] whose distance is zero, negative or minus
    infinity costs exactly 3.0, and a [PremiumRide] with such a distance and
    a multiplier that is not negative (the default 2.0 included) costs
    exactly 10.0. *)
Theorem fare_nonpositive_distance (pickup dropoff : string) (d : double) (s : State) :
  (d <=? 0)%float = true ->
  fare (fst (StandardRide_ctor pickup dropoff d s)) = 3.0%float /\
  (forall m : double,
      (0 <=? m)%float = true ->
      fare (fst (PremiumRide_ctor pickup dropoff d (Some m) s)) = 10.0%float) /\
  fare (fst (PremiumRide_ctor pickup dropoff d None s)) = 10.0%float.
Proof.
  intros Hd. pose proof (leb_zero_nonpositive d Hd) as Hn.
  assert (Hprem : forall m : double,
             (0 <=? m)%float = true ->
             fare (fst (PremiumRide_ctor pickup dropoff d (Some m) s)) = 10.0%float).
  { intros m Hm. rewrite fare_PremiumRide_ctor. simpl.
    pose proof (mul_pos_nonpositive 2.5 d 5629499534213120 (-51) eq_refl Hn) as H1.
    destruct (mul_nonpositive_nonnegative (2.5 * d) m H1 (leb_zero_nonnegative m Hm))
      as [Hnan|H2].
    - apply std_max_nan_right, add_nan_l, Hnan.
    - unfold std_max.
      rewrite (ltb_at_most_exponent 10.0 _ 5629499534213120 (-49) (-51)); try reflexivity.
      apply (add_nonpositive _ 2.0 4503599627370496 (-51) 1); try reflexivity; try lia.
      exact H2. }
  split; [|split; [exact Hprem|apply (Hprem 2.0%float); reflexivity]].
  rewrite fare_StandardRide_ctor. unfold std_max.
  rewrite (ltb_at_most_exponent 3.0 _ 6755399441055744 (-51) (-52)); try reflexivity.
  apply (add_nonpositive _ 1.0 4503599627370496 (-52) 0); try reflexivity; try lia.
  apply (mul_pos_nonpositive 1.5 d 6755399441055744 (-52)); [reflexivity|exact Hn].
Qed.

Lemma fare_nonpositive_distance_witness :
  (-18.4 <=? 0)%float = true /\ (0 <=? 1.5)%float = true /\
  fare (fst (StandardRide_ctor "Downtown" "Airport" (-18.4) initial_state)) = 3.0%float /\
  fare (fst (PremiumRide_ctor "Mall" "University" (-18.4) (Some 1.5%float) initial_state)) =
    10.0%float.
Proof.
  split; [reflexivity|]. split; [reflexivity|].
  destruct (fare_nonpositive_distance "Downtown" "Airport" (-18.4)%float initial_state eq_refl)
    as (H1 & _ & _).
  destruct (fare_nonpositive_distance "Mall" "University" (-18.4)%float initial_state eq_refl)
    as (_ & H2 & _).
  split; [exact H1|apply H2; reflexivity].
Defined.
